(** * debut.package: Debian binary package archive names, ordering and
      relationship matching.

    A shallow embedding of [src/debut/package.py].  Python values are
    modelled with explicit types: [str] as [string] (compared by character
    code), exceptions as a [result] sum, the [dict] built by
    [find_latest_versions] as a [gmap], the [set] of names as a [gset].
    The class [debut.version.Version] and the relationship sets are external
    to this module and enter as interfaces. *)

From Stdlib Require Import String Ascii List Bool ZArith Lia Permutation.
From Stdlib Require Import Sorted OrderedTypeEx.
From stdpp Require Import gmap strings list fin_maps.
Import ListNotations.

Local Open Scope string_scope.
Local Open Scope Z_scope.

(* ===================================================================== *)
(** ** Exceptions *)
(* ===================================================================== *)

(** The exceptions this module can raise or let through. *)
Inductive exn : Type :=
| ValueError (msg : string)
| TypeError (msg : string)
| IndexError (msg : string).

Inductive result (A : Type) : Type :=
| Ok (a : A)
| Raise (e : exn).

Arguments Ok {A} a.
Arguments Raise {A} e.

Definition bind {A B : Type} (m : result A) (k : A -> result B) : result B :=
  match m with
  | Ok a => k a
  | Raise e => Raise e
  end.

Notation "x <-- m ;; k" := (bind m (fun x => k))
  (at level 100, m at next level, right associativity).

Definition is_ok {A : Type} (m : result A) : bool :=
  match m with Ok _ => true | Raise _ => false end.

(** A list comprehension [[f(x) for x in l]]: left to right, the first
    exception aborts the whole comprehension. *)
Fixpoint comprehension {A B : Type} (f : A -> result B) (l : list A)
  : result (list B) :=
  match l with
  | [] => Ok []
  | x :: l' => y <-- f x ;; ys <-- comprehension f l' ;; Ok (y :: ys)
  end.

(* ===================================================================== *)
(** ** Python strings *)
(* ===================================================================== *)

Module PyStr.

(** [s.rfind(c)] for a one-character [c]: the highest index of [c] in
    [s], or [-1]. *)
Fixpoint rfind (c : ascii) (s : string) : Z :=
  match s with
  | EmptyString => -1
  | String a s' =>
      let r := rfind c s' in
      if 0 <=? r then r + 1
      else if Ascii.eqb a c then 0 else -1
  end.

Fixpoint drop (n : nat) (s : string) : string :=
  match n, s with
  | O, _ => s
  | S _, EmptyString => EmptyString
  | S n', String _ s' => drop n' s'
  end.

Fixpoint take (n : nat) (s : string) : string :=
  match n, s with
  | O, _ => EmptyString
  | S _, EmptyString => EmptyString
  | S n', String a s' => String a (take n' s')
  end.

(** The slices [s[i:]], [s[:j]] and [s[i:j]].  Every index this module
    slices with is non-negative (an [rfind] result plus one, or an index
    above an [rfind] result), so Python's counting from the end for
    negative indices never applies. *)
Definition slice_from (i : Z) (s : string) : string := drop (Z.to_nat i) s.
Definition slice_to (j : Z) (s : string) : string := take (Z.to_nat j) s.
Definition slice (i j : Z) (s : string) : string :=
  take (Z.to_nat (j - i)) (drop (Z.to_nat i) s).

(** [s.split(sep)] for a one-character separator: a string with [n]
    separators gives [n + 1] components, empty ones included. *)
Fixpoint split (sep : ascii) (s : string) : list string :=
  match s with
  | EmptyString => [EmptyString]
  | String a s' =>
      if Ascii.eqb a sep then EmptyString :: split sep s'
      else match split sep s' with
           | h :: t => String a h :: t
           | [] => [String a EmptyString]
           end
  end.

(** [template.format(args...)] for templates whose only replacement
    fields are the automatic [{}]: each field takes the next argument.
    Text without a field is returned as it is and surplus arguments are
    ignored, as in Python. *)
Fixpoint format (template : string) (args : list string) : string :=
  match template with
  | EmptyString => EmptyString
  | String "{" (String "}" t') =>
      match args with
      | a :: args' => a ++ format t' args'
      | [] => format t' []
      end
  | String c t' => String c (format t' args)
  end.

(** [sep.join(l)]. *)
Definition join (sep : string) (l : list string) : string :=
  String.concat sep l.

(** [sub in s]. *)
Fixpoint startswith (sub s : string) : bool :=
  match sub, s with
  | EmptyString, _ => true
  | String a sub', String b s' => Ascii.eqb a b && startswith sub' s'
  | String _ _, EmptyString => false
  end.

Fixpoint contains (sub s : string) : bool :=
  startswith sub s
  || match s with
     | EmptyString => false
     | String _ s' => contains sub s'
     end.

(** Number of occurrences of a character. *)
Fixpoint count (c : ascii) (s : string) : nat :=
  match s with
  | EmptyString => O
  | String a s' => ((if Ascii.eqb a c then 1 else 0) + count c s')%nat
  end.

(** ASCII lower-casing, used to speak about case variants. *)
Definition lower_ascii (a : ascii) : ascii :=
  let n := N_of_ascii a in
  if ((65 <=? n) && (n <=? 90))%N then ascii_of_N (n + 32) else a.

Fixpoint lower (s : string) : string :=
  match s with
  | EmptyString => EmptyString
  | String a s' => String (lower_ascii a) (lower s')
  end.

End PyStr.

(** ** [os.path] (the POSIX flavour) *)
Module PosixPath.

(** [posixpath.basename]: [i = p.rfind('/') + 1; return p[i:]]. *)
Definition basename (p : string) : string :=
  let i := PyStr.rfind "/" p + 1 in
  PyStr.slice_from i p.

(** The loop of [genericpath._splitext] that skips leading dots: it
    runs while [filenameIndex < dotIndex] and reports whether it met a
    character other than the extension separator.  [steps] is the
    number of indices left below [dotIndex]. *)
Fixpoint has_name_before_dot (p : string) (filenameIndex : Z) (steps : nat)
  : bool :=
  match steps with
  | O => false
  | S steps' =>
      if negb (String.eqb (PyStr.slice filenameIndex (filenameIndex + 1) p) ".")
      then true
      else has_name_before_dot p (filenameIndex + 1) steps'
  end.

(** [posixpath.splitext], that is [genericpath._splitext(p, '/', None, '.')]. *)
Definition splitext (p : string) : string * string :=
  let sepIndex := PyStr.rfind "/" p in
  let dotIndex := PyStr.rfind "." p in
  if (sepIndex <? dotIndex)
     && has_name_before_dot p (sepIndex + 1)
          (Z.to_nat (dotIndex - (sepIndex + 1)))
  then (PyStr.slice_to dotIndex p, PyStr.slice_from dotIndex p)
  else (p, PyStr.slice_to 0 p).

End PosixPath.

(* ===================================================================== *)
(** ** Sorting with a comparison that may raise *)
(* ===================================================================== *)

(** [sorted(l, key=key)] only ever asks [key(x) < key(y)], and is stable.
    It is modelled as a stable insertion of each element, from left to
    right, behind the elements already placed that are not greater; an
    exception of [<] ends the sort.  For a [<] that never raises and
    orders the keys this is the stable sorted permutation that Python
    returns. *)
Section Sorting.
Context {A K : Type} (key : A -> K) (lt : K -> K -> result bool).

Fixpoint insort (x : A) (l : list A) : result (list A) :=
  match l with
  | [] => Ok [x]
  | y :: l' =>
      b <-- lt (key x) (key y) ;;
      if b : bool then Ok (x :: y :: l')
      else (r <-- insort x l' ;; Ok (y :: r))
  end.

Fixpoint sorted_onto (acc l : list A) : result (list A) :=
  match l with
  | [] => Ok acc
  | x :: l' => acc' <-- insort x acc ;; sorted_onto acc' l'
  end.

Definition sorted (l : list A) : result (list A) := sorted_onto [] l.
End Sorting.

(** [itertools.groupby(l, key)] for string keys: the maximal runs of
    consecutive elements with equal keys, each with the key of the run. *)
Fixpoint groupby {A : Type} (key : A -> string) (l : list A)
  : list (string * list A) :=
  match l with
  | [] => []
  | x :: l' =>
      match groupby key l' with
      | (k, g) :: rest =>
          if String.eqb (key x) k then (k, x :: g) :: rest
          else (key x, [x]) :: (k, g) :: rest
      | [] => [(key x, [x])]
      end
  end.

(* ===================================================================== *)
(** ** The external version class *)
(* ===================================================================== *)

(** What this module uses of [debut.version.Version]: the parser
    [Version.from_string], which returns a version or raises, and the
    comparisons [==] and [<] between two versions. *)
Class VersionClass : Type := {
  Version : Type;
  Version_from_string : string -> result Version;
  Version_eq : Version -> Version -> bool;
  Version_lt : Version -> Version -> bool;
}.

(* ===================================================================== *)
(** ** [debut.package] *)
(* ===================================================================== *)

Section Package.
Context {VC : VersionClass}.

(** [class DebArchive]: the attributes [name], [version],
    [architecture] and [original_filename] (default [None]). *)
Record DebArchive : Type := mkDebArchive {
  name : string;
  version : Version;
  architecture : string;
  original_filename : option string;
}.

(** The Python values held by the attributes of an archive. *)
Inductive pyval : Type :=
| PStr (s : string)
| PVersion (v : Version)
| PNone.

Definition of_optional (o : option string) : pyval :=
  match o with Some s => PStr s | None => PNone end.

(** [x == y].  A version is equal to versions only, [None] to [None]
    only. *)
Definition py_eq (x y : pyval) : bool :=
  match x, y with
  | PStr a, PStr b => String.eqb a b
  | PVersion a, PVersion b => Version_eq a b
  | PNone, PNone => true
  | _, _ => false
  end.

Definition type_name (x : pyval) : string :=
  match x with
  | PStr _ => "str"
  | PVersion _ => "Version"
  | PNone => "NoneType"
  end.

(** [x < y]: strings by character code, versions by the version class;
    values of different kinds, and [None], are not ordered. *)
Definition py_lt (x y : pyval) : result bool :=
  match x, y with
  | PStr a, PStr b => Ok (String.ltb a b)
  | PVersion a, PVersion b => Ok (Version_lt a b)
  | _, _ =>
      Raise (TypeError (PyStr.format
        "'<' not supported between instances of '{}' and '{}'"
        [type_name x; type_name y]))
  end.

(** [==] and [<] on tuples: the first position whose items are not [==]
    decides, by [<] on these items; without such a position the shorter
    tuple is the smaller. *)
Fixpoint tuple_eq (a b : list pyval) : bool :=
  match a, b with
  | [], [] => true
  | x :: a', y :: b' => py_eq x y && tuple_eq a' b'
  | _, _ => false
  end.

Fixpoint tuple_lt (a b : list pyval) : result bool :=
  match a, b with
  | [], [] => Ok false
  | [], _ :: _ => Ok true
  | _ :: _, [] => Ok false
  | x :: a', y :: b' => if py_eq x y then tuple_lt a' b' else py_lt x y
  end.

(** The arguments [from_filename] and the batch functions accept: a
    filename or an archive that was built before. *)
Inductive package : Type :=
| Filename (filename : string)
| Archive (archive : DebArchive).

(** The two errors that [from_filename] raises itself. *)
Definition unknown_extension (filename : string) : exn :=
  ValueError (PyStr.format
    "Unknown Debian binary package filename extension: {}" [filename]).

Definition unknown_format (filename : string) : exn :=
  ValueError (PyStr.format
    ("Unknown Debian binary package filename format. "
     ++ "Should have three underscore: {}") [filename]).

(** [DebArchive.from_filename]. *)
Definition from_filename (arg : package) : result DebArchive :=
  match arg with
  | Archive archive => Ok archive
  | Filename filename =>
      let original_filename := filename in
      let filename := PosixPath.basename filename in
      let '(basename, extension) := PosixPath.splitext filename in
      if negb (String.eqb extension ".deb" || String.eqb extension ".udeb")
      then Raise (unknown_extension filename)
      else
        let components := PyStr.split "_" basename in
        if negb (Nat.eqb (List.length components) 3)
        then Raise (unknown_format filename)
        else
          match components with
          | [name; evr; architecture] =>
              version <-- Version_from_string evr ;;
              Ok (mkDebArchive name version architecture
                    (Some original_filename))
          | _ => Raise (ValueError "wrong number of values to unpack")
          end
  end.

(** [DebArchive.to_dict]: the ordered dictionary of the attributes. *)
Definition to_dict (self : DebArchive) : list (string * pyval) :=
  [ ("name", PStr (name self));
    ("version", PVersion (version self));
    ("architecture", PStr (architecture self));
    ("original_filename", of_optional (original_filename self)) ].

Definition values (d : list (string * pyval)) : list pyval := map snd d.

(** [DebArchive.to_tuple]:
    [tuple(v for v in self.to_dict().values() if v != 'original_filename')]. *)
Definition to_tuple (self : DebArchive) : list pyval :=
  List.filter (fun v => negb (py_eq v (PStr "original_filename")))
    (values (to_dict self)).

(** The order that [attrs] generates for the class: the tuples of all
    attributes are compared. *)
Definition astuple (self : DebArchive) : list pyval :=
  [ PStr (name self); PVersion (version self); PStr (architecture self);
    of_optional (original_filename self) ].

Definition DebArchive_lt (a b : DebArchive) : result bool :=
  tuple_lt (astuple a) (astuple b).

(** *** [match_relationships] *)
Section Relationships.
(** A relationship set is external; [matches] is its method
    [relationships.matches(name, version)], answering [True], [False]
    or [None]. *)
Context {RelationshipSet : Type}.
Context (matches : RelationshipSet -> string -> Version -> option bool).

(** Calls of [matches] are recorded: the state is the list of the
    relationship sets evaluated so far, oldest first. *)
Definition call_matches (relationships : RelationshipSet)
    (n : string) (v : Version) (log : list RelationshipSet)
  : option bool * list RelationshipSet :=
  (matches relationships n v, (log ++ [relationships])%list).

Definition is_True (o : option bool) : bool :=
  match o with Some true => true | _ => false end.
Definition is_False (o : option bool) : bool :=
  match o with Some false => true | _ => false end.

(** The [for] loop, from the relationship sets that remain. *)
Fixpoint match_loop (package_archive : DebArchive)
    (relationship_sets : list RelationshipSet)
    (archive_matches : option bool) (log : list RelationshipSet)
  : option bool * list RelationshipSet :=
  match relationship_sets with
  | [] => (archive_matches, log)
  | relationships :: rest =>
      let '(status, log) :=
        call_matches relationships (name package_archive)
          (version package_archive) log in
      if is_True status && negb (is_False archive_matches)
      then match_loop package_archive rest (Some true) log
      else if is_False status
      then (Some false, log)
      else match_loop package_archive rest archive_matches log
  end.

(** The verdict, and the relationship sets that were evaluated. *)
Definition match_relationships_traced (package_archive : DebArchive)
    (relationship_sets : list RelationshipSet)
  : option bool * list RelationshipSet :=
  match_loop package_archive relationship_sets None [].

Definition match_relationships (package_archive : DebArchive)
    (relationship_sets : list RelationshipSet) : option bool :=
  fst (match_relationships_traced package_archive relationship_sets).
End Relationships.

(** *** [find_latest_version] *)

Definition different_names_msg : string :=
  "Cannot compare versions of different package names".

(** [packages[-1]]. *)
Definition last_item (packages : list DebArchive) : result DebArchive :=
  match List.rev packages with
  | p :: _ => Ok p
  | [] => Raise (IndexError "list index out of range")
  end.

(** The body of [find_latest_version] below the test [if not packages]. *)
Definition find_latest_version_checked (packages : list package)
  : result DebArchive :=
  packages <-- comprehension from_filename packages ;;
  packages <-- sorted to_tuple tuple_lt packages ;;
  let names : gset string := list_to_set (map name packages) in
  if (1 <? size names)%nat
  then
    sorted_names <-- sorted (fun n => n)
                       (fun a b => Ok (String.ltb a b)) (elements names) ;;
    Raise (ValueError (PyStr.format different_names_msg
                         [PyStr.join " " sorted_names]))
  else last_item packages.

(** [find_latest_version(packages)] for a list [packages]: [None] for
    the empty list. *)
Definition find_latest_version (packages : list package)
  : result (option DebArchive) :=
  match packages with
  | [] => Ok None
  | _ => latest <-- find_latest_version_checked packages ;; Ok (Some latest)
  end.

(** *** [find_latest_versions] *)

(** The loop over the groups.  A group of [itertools.groupby] is an
    iterator, which is true in [if not packages] whatever it holds, so
    [find_latest_version] goes straight to its body. *)
Fixpoint latest_of_groups (groups : list (string * list DebArchive))
    (latests : gmap string DebArchive) : result (gmap string DebArchive) :=
  match groups with
  | [] => Ok latests
  | (name, packages_group) :: rest =>
      latest <-- find_latest_version_checked (map Archive packages_group) ;;
      latest_of_groups rest (<[name := latest]> latests)
  end.

Definition find_latest_versions (packages : list package)
  : result (option (gmap string DebArchive)) :=
  match packages with
  | [] => Ok None
  | _ =>
      packages <-- comprehension from_filename packages ;;
      packages <-- sorted (fun p => p) DebArchive_lt packages ;;
      latests <-- latest_of_groups (groupby name packages) ∅ ;;
      Ok (Some latests)
  end.

End Package.

Arguments DebArchive VC : clear implicits.
Arguments pyval VC : clear implicits.
Arguments package VC : clear implicits.

(* ===================================================================== *)
(** ** A version class to run the module with *)
(* ===================================================================== *)

(** Modelled from the spec: [debut.version] is not among the sources.
    The spec asks of the version parser that it turns a version string
    into a value or fails on malformed input, and of the values that
    they are totally ordered.  Here a version is the text it was read
    from, the empty string is malformed, and versions are ordered as
    strings are. *)
Record TextVersion : Type := mkTextVersion { version_text : string }.

Definition TextVersion_from_string (version : string) : result TextVersion :=
  if String.eqb version ""
  then Raise (ValueError (PyStr.format "Invalid version string: {}" [version]))
  else Ok (mkTextVersion version).

Definition TextVersionClass : VersionClass := {|
  Version := TextVersion;
  Version_from_string := TextVersion_from_string;
  Version_eq := fun a b => String.eqb (version_text a) (version_text b);
  Version_lt := fun a b => String.ltb (version_text a) (version_text b);
|}.

(* ===================================================================== *)
(** ** Vocabulary of the statements *)
(* ===================================================================== *)

Section RelationshipVocabulary.
Context {VC : VersionClass} {RelationshipSet : Type}.
Context (matches : RelationshipSet -> string -> Version -> option bool).

(** What a relationship set reports about an archive. *)
Definition reports (archive : DebArchive VC) (status : option bool)
    (relationships : RelationshipSet) : Prop :=
  matches relationships (name archive) (version archive) = status.

Definition no_conflict (archive : DebArchive VC)
    (relationships : RelationshipSet) : Prop :=
  ~ reports archive (Some false) relationships.

(** The verdict of a run without any conflict, from the verdict so far. *)
Definition peaceful_verdict (archive : DebArchive VC)
    (archive_matches : option bool) (sets : list RelationshipSet)
  : option bool :=
  if existsb (fun r => is_True (matches r (name archive) (version archive)))
       sets
  then Some true else archive_matches.
End RelationshipVocabulary.

Section OrderingVocabulary.
Context {VC : VersionClass}.

(** The ordering key of the spec: the triple of name, version and
    architecture, compared as Python compares tuples. *)
Definition ordering_key (archive : DebArchive VC) : list (pyval VC) :=
  [ PStr (name archive); PVersion (version archive);
    PStr (architecture archive) ].

End OrderingVocabulary.

(** The stable sorted permutation for a comparison that cannot raise:
    what [sorted] computes when [<] always answers. *)
Section StableSort.
Context {A : Type} (ltb : A -> A -> bool).

Fixpoint stable_insert (x : A) (l : list A) : list A :=
  match l with
  | [] => [x]
  | y :: l' => if ltb x y then x :: y :: l' else y :: stable_insert x l'
  end.

Fixpoint stable_sort_onto (acc l : list A) : list A :=
  match l with
  | [] => acc
  | x :: l' => stable_sort_onto (stable_insert x acc) l'
  end.

Definition stable_sort (l : list A) : list A := stable_sort_onto [] l.

(** [x] is not above [y]: the relation between an element of a sorted
    list and the elements behind it. *)
Definition not_above (x y : A) : Prop := ltb y x = false.
End StableSort.

(** The order of pairs that compares the first components and, when
    these are equal, the second ones. *)
Definition lex {A B : Type} (eqA ltA : A -> A -> bool) (ltB : B -> B -> bool)
    (x y : A * B) : bool :=
  if eqA (fst x) (fst y) then ltB (snd x) (snd y) else ltA (fst x) (fst y).

(** What makes [eqb] and [ltb] the equality and the strict order of one
    component of a key. *)
Record component_order {A : Type} (eqb ltb : A -> A -> bool) : Prop := {
  eqb_refl : forall x, eqb x x = true;
  eqb_sym : forall x y, eqb x y = true -> eqb y x = true;
  eqb_trans : forall x y z, eqb x y = true -> eqb y z = true -> eqb x z = true;
  ltb_trans : forall x y z, ltb x y = true -> ltb y z = true -> ltb x z = true;
  ltb_not_eqb : forall x y, ltb x y = true -> eqb x y = false;
  ltb_eqb_l : forall x y z, eqb x y = true -> ltb x z = ltb y z;
  ltb_eqb_r : forall x y z, eqb x y = true -> ltb z x = ltb z y;
}.

(** Modelled from the spec: the versions are ordered values.  [==] is an
    equivalence on versions and [<] a strict order that respects it. *)
Class VersionOrder (VC : VersionClass) : Prop :=
  version_order : component_order (@Version_eq VC) (@Version_lt VC).

Section AttributeOrder.
Context {VC : VersionClass}.

(** An archive as [from_filename] builds it from a string: it has an
    [original_filename], and none of its texts is the literal
    [original_filename] that [to_tuple] filters out. *)
Definition plain (archive : DebArchive VC) : Prop :=
  name archive <> "original_filename"
  /\ architecture archive <> "original_filename"
  /\ exists filename,
       original_filename archive = Some filename
       /\ filename <> "original_filename".

Definition filename_text (archive : DebArchive VC) : string :=
  match original_filename archive with Some s => s | None => "" end.

(** The order of the four attributes, and the order of the keys. *)
Definition attribute_lt (a b : DebArchive VC) : bool :=
  lex String.eqb String.ltb
    (lex Version_eq Version_lt (lex String.eqb String.ltb String.ltb))
    (name a, (version a, (architecture a, filename_text a)))
    (name b, (version b, (architecture b, filename_text b))).

End AttributeOrder.

(** The extension and the stem of a filename, as [from_filename] takes
    them: [splitext] of the [basename]. *)
Definition filename_extension (filename : string) : string :=
  snd (PosixPath.splitext (PosixPath.basename filename)).

Definition filename_stem (filename : string) : string :=
  fst (PosixPath.splitext (PosixPath.basename filename)).

Definition recognized_extension (extension : string) : Prop :=
  extension = ".deb" \/ extension = ".udeb".

(** [v] spells the extension [extension] with some letter in upper case. *)
Definition case_variant_of (extension v : string) : Prop :=
  PyStr.lower v = extension /\ v <> extension.

Section VerdictVocabulary.
Context {VC : VersionClass} {RelationshipSet : Type}.
Context (matches : RelationshipSet -> string -> Version -> option bool).

(** The verdict over a sequence of relationship sets in closed form: a
    conflict anywhere, else a satisfied report anywhere, else nothing. *)
Definition verdict_of (archive : DebArchive VC)
    (sets : list RelationshipSet) : option bool :=
  if existsb (fun r => is_False (matches r (name archive) (version archive)))
       sets
  then Some false
  else if existsb (fun r => is_True (matches r (name archive)
                                       (version archive))) sets
  then Some true
  else None.
End VerdictVocabulary.

(** How the verdicts of two sequences make the verdict of the sequences
    put one behind the other. *)
Definition combine_verdicts (first second : option bool) : option bool :=
  match first, second with
  | Some false, _ => Some false
  | _, Some false => Some false
  | _, Some true => Some true
  | _, None => first
  end.

Section ArchiveVocabulary.
Context {VC : VersionClass}.

(** An archive with another [original_filename]. *)
Definition with_original_filename (archive : DebArchive VC)
    (filename : option string) : DebArchive VC :=
  mkDebArchive (name archive) (version archive) (architecture archive)
    filename.
End ArchiveVocabulary.

(** The file name of a package: [<name>_<version>_<architecture><ext>]. *)
Definition package_filename (n evr arch extension : string) : string :=
  n ++ "_" ++ evr ++ "_" ++ arch ++ extension.

(** A directory prefix: nothing, or a path that ends in a slash. *)
Definition directory_prefix (dir : string) : Prop :=
  dir = "" \/ exists d, dir = d ++ "/".

(* ===================================================================== *)
(** * Facts *)
(* ===================================================================== *)

(** ** Strings and paths *)

Module PyStrFacts.
Import PyStr.

Lemma append_nil_l (v : string) : "" ++ v = v.
Proof. reflexivity. Qed.

Lemma append_cons (a : ascii) (u v : string) :
  String a u ++ v = String a (u ++ v).
Proof. reflexivity. Qed.

Lemma rfind_bounds (c : ascii) (s : string) :
  -1 <= rfind c s < Z.of_nat (String.length s).
Proof.
  induction s as [|a s IH]; cbn [rfind String.length]; [lia|].
  rewrite Nat2Z.inj_succ.
  destruct (0 <=? rfind c s) eqn:E.
  - apply Z.leb_le in E. lia.
  - destruct (Ascii.eqb a c); lia.
Qed.

(** A character found in the right part is found there in the whole. *)
Lemma rfind_app_found (c : ascii) (u v : string) :
  0 <= rfind c v ->
  rfind c (u ++ v) = Z.of_nat (String.length u) + rfind c v.
Proof.
  intros Hv. induction u as [|a u IH].
  - rewrite append_nil_l. simpl. lia.
  - rewrite append_cons. cbn [rfind String.length].
    rewrite IH, Nat2Z.inj_succ.
    destruct (0 <=? Z.of_nat (String.length u) + rfind c v) eqn:E.
    + lia.
    + apply Z.leb_gt in E. lia.
Qed.

(** A character absent from the right part is looked for in the left. *)
Lemma rfind_app_absent (c : ascii) (u v : string) :
  rfind c v = -1 -> rfind c (u ++ v) = rfind c u.
Proof.
  intros Hv. induction u as [|a u IH].
  - rewrite append_nil_l. exact Hv.
  - rewrite append_cons. simpl. now rewrite IH.
Qed.

Lemma drop_app_length (u v : string) :
  drop (String.length u) (u ++ v) = v.
Proof.
  induction u as [|a u IH]; [now destruct v|].
  rewrite append_cons. exact IH.
Qed.

Lemma drop_app_le (n : nat) (u v : string) :
  (n <= String.length u)%nat -> drop n (u ++ v) = drop n u ++ v.
Proof.
  revert n. induction u as [|a u IH]; intros n Hn; simpl in Hn.
  - assert (n = O) by lia. subst. reflexivity.
  - destruct n as [|n]; [reflexivity|].
    rewrite append_cons. simpl. apply IH. lia.
Qed.

Lemma take_drop (n : nat) (s : string) : take n s ++ drop n s = s.
Proof.
  revert s. induction n as [|n IH]; intros [|a s]; try reflexivity.
  simpl. rewrite append_cons. now rewrite IH.
Qed.

(** [split]: one component more than there are separators, and no
    separator inside a component. *)
Lemma split_length (c : ascii) (s : string) :
  List.length (split c s) = S (count c s).
Proof.
  induction s as [|a s IH]; simpl; [reflexivity|].
  destruct (Ascii.eqb a c); simpl.
  - now rewrite IH.
  - destruct (split c s) as [|h t]; simpl in *; [discriminate | exact IH].
Qed.

Lemma split_components_clean (c : ascii) (s x : string) :
  In x (split c s) -> count c x = O.
Proof.
  revert x. induction s as [|a s IH]; simpl; intros x Hx.
  - destruct Hx as [<-|[]]. reflexivity.
  - destruct (Ascii.eqb a c) eqn:E.
    + destruct Hx as [<-|Hx]; [reflexivity | now apply IH].
    + destruct (split c s) as [|h t].
      * destruct Hx as [<-|[]]. simpl. now rewrite E.
      * destruct Hx as [<-|Hx].
        -- simpl. rewrite E. apply IH. now left.
        -- apply IH. now right.
Qed.

(** A template without a replacement field ignores its arguments. *)
Lemma format_no_field (t : string) (args : list string) :
  count "{" t = O -> format t args = t.
Proof.
  revert args. induction t as [|a t IH]; intros args H; simpl in *.
  - reflexivity.
  - destruct (Ascii.eqb a "{") eqn:E; [discriminate|].
    simpl in H.
    assert (Ha : a <> "{"%char) by (intros ->; discriminate).
    assert (Hrec : format t args = t) by now apply IH.
    destruct a as [[] [] [] [] [] [] [] []]; try (now rewrite Hrec);
      try (exfalso; now apply Ha).
    all: destruct t as [|b t]; [reflexivity|].
    all: destruct b as [[] [] [] [] [] [] [] []]; try (now rewrite Hrec).
Qed.

End PyStrFacts.

Module PathFacts.
Import PyStr PyStrFacts PosixPath.

(** A suffix without a slash stays in the base name. *)
Lemma basename_app (p v : string) :
  rfind "/" v = -1 -> basename (p ++ v) = basename p ++ v.
Proof.
  intros Hv. unfold basename, slice_from.
  rewrite (rfind_app_absent _ _ _ Hv).
  apply drop_app_le. pose proof (rfind_bounds "/" p). lia.
Qed.

(** The extension is empty or runs from the last dot to the end. *)
Lemma splitext_extension (p : string) :
  snd (splitext p) = ""
  \/ (0 <= rfind "." p /\ snd (splitext p) = slice_from (rfind "." p) p).
Proof.
  unfold splitext.
  destruct (_ && _) eqn:E; simpl; [right | left; reflexivity].
  apply andb_prop in E as [E _]. apply Z.ltb_lt in E.
  pose proof (rfind_bounds "/" p). split; [lia | reflexivity].
Qed.

Lemma splitext_join (p : string) :
  fst (splitext p) ++ snd (splitext p) = p.
Proof.
  unfold splitext. destruct (_ && _); simpl.
  - apply take_drop.
  - unfold slice_to. simpl. clear. induction p as [|a p IH]; [reflexivity|].
    rewrite append_cons. now rewrite IH.
Qed.

(** When the name ends in a dot followed by dot-free text, the
    extension is that ending, or empty when only dots precede it. *)
Lemma splitext_of_suffix (b w : string) :
  rfind "." w = -1 ->
  snd (splitext (b ++ String "." w)) = ""
  \/ snd (splitext (b ++ String "." w)) = String "." w.
Proof.
  intros Hw.
  destruct (splitext_extension (b ++ String "." w)) as [H|[_ H]];
    [now left | right].
  rewrite H. unfold slice_from.
  assert (Hv : rfind "." (String "." w) = 0) by (simpl; now rewrite Hw).
  rewrite rfind_app_found by lia. rewrite Hv, Z.add_0_r, Nat2Z.id.
  apply drop_app_length.
Qed.

End PathFacts.

Module CaseFacts.
Import PyStr PyStrFacts.

Lemma lower_ascii_dot (a : ascii) : lower_ascii a = "."%char -> a = "."%char.
Proof.
  destruct a as [[] [] [] [] [] [] [] []]; vm_compute; intros H;
    first [reflexivity | discriminate H].
Qed.

(** A character that lower-casing leaves alone and that is absent from
    the lower-cased string is absent from the string. *)
Lemma rfind_lower_absent (c : ascii) (v : string) :
  lower_ascii c = c -> rfind c (lower v) = -1 -> rfind c v = -1.
Proof.
  intros Hc. induction v as [|a v IH]; simpl; intros H; [reflexivity|].
  destruct (0 <=? rfind c (lower v)) eqn:E.
  - apply Z.leb_le in E. lia.
  - apply Z.leb_gt in E. pose proof (rfind_bounds c (lower v)).
    rewrite IH by lia. simpl.
    destruct (Ascii.eqb a c) eqn:Ea; [|reflexivity].
    apply Ascii.eqb_eq in Ea. subst a. rewrite Hc, Ascii.eqb_refl in H.
    discriminate.
Qed.

(** A case variant of a recognized extension is a dot followed by
    dot-free text, has no slash, and is not a recognized extension. *)
Lemma case_variant_shape (v : string) :
  case_variant_of ".deb" v \/ case_variant_of ".udeb" v ->
  (exists w, v = String "." w /\ rfind "." w = -1)
  /\ rfind "/" v = -1
  /\ ~ recognized_extension v.
Proof.
  intros Hv.
  assert (Hl : lower v = ".deb" \/ lower v = ".udeb")
    by (destruct Hv as [[H _]|[H _]]; auto).
  split; [|split].
  - destruct v as [|a w]; [destruct Hl; discriminate|].
    assert (Ha : lower_ascii a = "."%char)
      by (destruct Hl as [H|H]; simpl in H; now inversion H).
    apply lower_ascii_dot in Ha. subst a.
    exists w. split; [reflexivity|].
    apply rfind_lower_absent; [reflexivity|].
    destruct Hl as [H|H]; simpl in H; injection H as Hw; rewrite Hw;
      reflexivity.
  - apply rfind_lower_absent; [reflexivity|].
    destruct Hl as [H|H]; rewrite H; reflexivity.
  - intros [H|H]; subst v.
    + destruct Hv as [[_ H]|[H _]]; [now apply H | discriminate].
    + destruct Hv as [[H _]|[_ H]]; [discriminate | now apply H].
Qed.

End CaseFacts.

(** ** [from_filename] *)

Section FromFilenameFacts.
Context {VC : VersionClass}.
Import PyStr PosixPath.

Lemma recognized_extension_test (extension : string) :
  (String.eqb extension ".deb" || String.eqb extension ".udeb") = true
  <-> recognized_extension extension.
Proof.
  unfold recognized_extension.
  rewrite orb_true_iff, !String.eqb_eq. reflexivity.
Qed.

(** [from_filename] on a string, with the local names spelled out. *)
Lemma from_filename_string (s : string) :
  from_filename (Filename s) =
    if negb (String.eqb (filename_extension s) ".deb"
             || String.eqb (filename_extension s) ".udeb")
    then Raise (unknown_extension (basename s))
    else if negb (Nat.eqb (List.length (split "_" (filename_stem s))) 3)
    then Raise (unknown_format (basename s))
    else match split "_" (filename_stem s) with
         | [n; evr; a] =>
             v <-- Version_from_string evr ;;
             Ok (mkDebArchive n v a (Some s))
         | _ => Raise (ValueError "wrong number of values to unpack")
         end.
Proof.
  unfold from_filename, filename_extension, filename_stem.
  destruct (splitext (basename s)) as [stem extension]. reflexivity.
Qed.

Lemma from_filename_unknown_extension (s : string) :
  ~ recognized_extension (filename_extension s) ->
  from_filename (Filename s) = Raise (unknown_extension (basename s)).
Proof.
  intros H. rewrite from_filename_string.
  destruct (_ || _) eqn:E; [|reflexivity].
  apply recognized_extension_test in E. contradiction.
Qed.

Lemma from_filename_unknown_format (s : string) :
  recognized_extension (filename_extension s) ->
  List.length (split "_" (filename_stem s)) <> 3%nat ->
  from_filename (Filename s) = Raise (unknown_format (basename s)).
Proof.
  intros He Hn. rewrite from_filename_string.
  apply recognized_extension_test in He. rewrite He. simpl.
  apply Nat.eqb_neq in Hn. now rewrite Hn.
Qed.

Lemma from_filename_three_components (s n evr a : string) :
  recognized_extension (filename_extension s) ->
  split "_" (filename_stem s) = [n; evr; a] ->
  from_filename (Filename s) =
    (v <-- Version_from_string evr ;; Ok (mkDebArchive n v a (Some s))).
Proof.
  intros He Hc. rewrite from_filename_string.
  apply recognized_extension_test in He. rewrite He, Hc. reflexivity.
Qed.

Lemma three_components (l : list string) :
  List.length l = 3%nat -> exists n evr a, l = [n; evr; a].
Proof.
  destruct l as [|n [|evr [|a [|? ?]]]]; try discriminate. eauto.
Qed.

(** What a successful construction from a string has gone through. *)
Lemma from_filename_ok_inv (s : string) (archive : DebArchive VC) :
  from_filename (Filename s) = Ok archive ->
  recognized_extension (filename_extension s)
  /\ exists evr,
      split "_" (filename_stem s) = [name archive; evr; architecture archive]
      /\ Version_from_string evr = Ok (version archive)
      /\ original_filename archive = Some s.
Proof.
  rewrite from_filename_string.
  destruct (String.eqb (filename_extension s) ".deb"
            || String.eqb (filename_extension s) ".udeb") eqn:E;
    cbn [negb]; [|discriminate].
  apply recognized_extension_test in E.
  destruct (Nat.eqb (List.length (split "_" (filename_stem s))) 3) eqn:El;
    cbn [negb]; [|discriminate].
  apply Nat.eqb_eq, three_components in El as (n & evr & a & ->).
  destruct (Version_from_string evr) as [v|e] eqn:Ev; cbn [bind];
    [|discriminate].
  intros [= <-]. split; [assumption|]. now exists evr.
Qed.

(** The components of a stem hold no underscore. *)
Lemma from_filename_no_underscore (s : string) (archive : DebArchive VC) :
  from_filename (Filename s) = Ok archive ->
  count "_" (name archive) = O /\ count "_" (architecture archive) = O.
Proof.
  intros H. destruct (from_filename_ok_inv s archive H) as (_ & evr & Hc & _).
  split; apply (PyStrFacts.split_components_clean "_" (filename_stem s));
    rewrite Hc; [now left | right; right; now left].
Qed.

(** C5.  Construction from a string fails exactly when the extension of
    the base name is neither [.deb] nor [.udeb], or the stem does not
    split at its underscores into exactly three components, or the
    version parser rejects the second component; otherwise it succeeds.
    The first two failures are the [ValueError]s of [from_filename], the
    third is the exception of the version parser, passed on as it is. *)
Theorem from_filename_fails_exactly_when (s : string) :
  ((exists e, from_filename (Filename s) = Raise e) <->
     (~ recognized_extension (filename_extension s)
      \/ List.length (split "_" (filename_stem s)) <> 3%nat
      \/ exists n evr a e,
           split "_" (filename_stem s) = [n; evr; a]
           /\ Version_from_string evr = Raise e))
  /\ ((exists archive, from_filename (Filename s) = Ok archive) <->
     (recognized_extension (filename_extension s)
      /\ exists n evr a v,
           split "_" (filename_stem s) = [n; evr; a]
           /\ Version_from_string evr = Ok v))
  /\ (~ recognized_extension (filename_extension s) ->
      from_filename (Filename s) = Raise (unknown_extension (basename s)))
  /\ (recognized_extension (filename_extension s) ->
      List.length (split "_" (filename_stem s)) <> 3%nat ->
      from_filename (Filename s) = Raise (unknown_format (basename s)))
  /\ (forall n evr a e,
      recognized_extension (filename_extension s) ->
      split "_" (filename_stem s) = [n; evr; a] ->
      Version_from_string evr = Raise e ->
      from_filename (Filename s) = Raise e).
Proof.
  assert (Hdec : recognized_extension (filename_extension s)
                 \/ ~ recognized_extension (filename_extension s)).
  { destruct (String.eqb (filename_extension s) ".deb"
              || String.eqb (filename_extension s) ".udeb") eqn:E.
    - left. now apply recognized_extension_test.
    - right. intros H. apply recognized_extension_test in H. congruence. }
  assert (Hlen : List.length (split "_" (filename_stem s)) = 3%nat
                 \/ List.length (split "_" (filename_stem s)) <> 3%nat) by lia.
  repeat split.
  - (* a failure has one of the three causes *)
    intros [e He].
    destruct Hdec as [Hr|Hr]; [|now left].
    destruct Hlen as [Hl|Hl]; [|right; now left].
    right; right.
    destruct (three_components _ Hl) as (n & evr & a & Hc).
    rewrite (from_filename_three_components _ _ _ _ Hr Hc) in He.
    destruct (Version_from_string evr) as [v|e'] eqn:Ev; [discriminate|].
    now exists n, evr, a, e'.
  - (* each cause is a failure *)
    intros [Hr|[Hl|(n & evr & a & e & Hc & Ev)]].
    + eexists. now apply from_filename_unknown_extension.
    + destruct Hdec as [Hr|Hr].
      * eexists. now apply from_filename_unknown_format.
      * eexists. now apply from_filename_unknown_extension.
    + destruct Hdec as [Hr|Hr].
      * exists e. rewrite (from_filename_three_components _ _ _ _ Hr Hc).
        now rewrite Ev.
      * eexists. now apply from_filename_unknown_extension.
  - (* a success has passed the three tests *)
    destruct Hdec as [Hr|Hr]; [assumption|].
    destruct H as [archive Ha].
    rewrite (from_filename_unknown_extension _ Hr) in Ha. discriminate.
  - destruct H as [archive Ha].
    destruct Hdec as [Hr|Hr];
      [|rewrite (from_filename_unknown_extension _ Hr) in Ha; discriminate].
    destruct Hlen as [Hl|Hl];
      [|rewrite (from_filename_unknown_format _ Hr Hl) in Ha; discriminate].
    destruct (three_components _ Hl) as (n & evr & a & Hc).
    rewrite (from_filename_three_components _ _ _ _ Hr Hc) in Ha.
    destruct (Version_from_string evr) as [v|e'] eqn:Ev; [|discriminate].
    now exists n, evr, a, v.
  - intros [Hr (n & evr & a & v & Hc & Ev)].
    eexists. rewrite (from_filename_three_components _ _ _ _ Hr Hc).
    rewrite Ev. reflexivity.
  - apply from_filename_unknown_extension.
  - apply from_filename_unknown_format.
  - intros n evr a e Hr Hc Ev.
    rewrite (from_filename_three_components _ _ _ _ Hr Hc). now rewrite Ev.
Qed.

(** A stem with a number of underscores other than two is refused. *)
Lemma from_filename_underscores (s : string) :
  count "_" (filename_stem s) <> 2%nat ->
  exists msg, from_filename (Filename s) = Raise (ValueError msg).
Proof.
  intros Hc.
  destruct (String.eqb (filename_extension s) ".deb"
            || String.eqb (filename_extension s) ".udeb") eqn:E.
  - apply recognized_extension_test in E.
    eexists. apply from_filename_unknown_format; [assumption|].
    rewrite PyStrFacts.split_length. lia.
  - eexists. apply from_filename_unknown_extension.
    intros H. apply recognized_extension_test in H. congruence.
Qed.

(** C8.  [from_filename] hands back an archive that was built before as
    it is: nothing is parsed or validated again, and nothing is raised,
    whatever the attributes of the archive are, its [original_filename]
    included; doing it again changes nothing. *)
Theorem from_filename_archive_unchanged (archive : DebArchive VC) :
  from_filename (Archive archive) = Ok archive
  /\ is_ok (from_filename (Archive archive)) = true
  /\ (x <-- from_filename (Archive archive) ;; from_filename (Archive x))
     = Ok archive.
Proof.
  assert (H : from_filename (Archive archive) = Ok archive) by reflexivity.
  split; [exact H|]. split.
  - now rewrite H.
  - rewrite H. cbn [bind]. exact H.
Qed.

(** Parsing twice is parsing once. *)
Lemma from_filename_idempotent (arg : package VC) (archive : DebArchive VC) :
  from_filename arg = Ok archive ->
  from_filename (Archive archive) = from_filename arg.
Proof. intros H. now rewrite H. Qed.

(** C7, as the code has it.  After a successful construction from a
    string all attributes are set: [name] and [architecture] are the
    first and the third component of the stem split at its underscores,
    taken as they are, so they hold no underscore but may be empty;
    [version] is what the version parser returned for the second
    component, which is not empty if that parser rejects the empty
    string; [original_filename] is the argument. *)
Theorem from_filename_attributes (s : string) (archive : DebArchive VC) :
  from_filename (Filename s) = Ok archive ->
  exists evr,
    split "_" (filename_stem s) = [name archive; evr; architecture archive]
    /\ Version_from_string evr = Ok (version archive)
    /\ original_filename archive = Some s
    /\ count "_" (name archive) = O
    /\ count "_" (architecture archive) = O
    /\ (is_ok (Version_from_string "") = false -> evr <> "").
Proof.
  intros H.
  destruct (from_filename_ok_inv s archive H) as (_ & evr & Hc & Ev & Ho).
  destruct (from_filename_no_underscore s archive H) as [Hn Ha].
  exists evr. repeat split; try assumption.
  intros Hempty ->. rewrite Ev in Hempty. discriminate.
Qed.

(** C10.  The extension is compared as it is written: a filename that
    ends in [.deb] or [.udeb] spelled with some upper-case letter is
    refused with the unknown-extension error, whatever precedes the
    extension. *)
Theorem from_filename_extension_case_sensitive (p v : string) :
  case_variant_of ".deb" v \/ case_variant_of ".udeb" v ->
  from_filename (Filename (p ++ v))
  = Raise (unknown_extension (basename (p ++ v))).
Proof.
  intros Hv.
  destruct (CaseFacts.case_variant_shape v Hv)
    as ((w & -> & Hw) & Hslash & Hnot).
  apply from_filename_unknown_extension.
  unfold filename_extension.
  rewrite (PathFacts.basename_app _ _ Hslash).
  destruct (PathFacts.splitext_of_suffix (basename p) w Hw) as [E|E];
    rewrite E; [|exact Hnot].
  intros [H|H]; discriminate.
Qed.

End FromFilenameFacts.

(** ** [match_relationships] *)

Section RelationshipFacts.
Context {VC : VersionClass} {RelationshipSet : Type}.
Context (matches : RelationshipSet -> string -> Version -> option bool).

(** The loop stops at the first conflict, with the conflict as its
    verdict, whatever it has seen before and whatever follows. *)
Lemma match_loop_first_conflict (archive : DebArchive VC)
    (before after : list RelationshipSet) (r : RelationshipSet)
    (archive_matches : option bool) (log : list RelationshipSet) :
  Forall (no_conflict matches archive) before ->
  reports matches archive (Some false) r ->
  match_loop matches archive (before ++ r :: after) archive_matches log
  = (Some false, (log ++ before ++ [r])%list).
Proof.
  intros Hbefore Hr. revert archive_matches log.
  induction Hbefore as [|x before Hx _ IH]; intros archive_matches log.
  - cbn [match_loop call_matches app]. unfold reports in Hr. rewrite Hr.
    simpl. reflexivity.
  - cbn [match_loop call_matches app].
    replace (log ++ x :: before ++ [r])%list
      with ((log ++ [x]) ++ before ++ [r])%list
      by (rewrite <- app_assoc; reflexivity).
    destruct (is_True _ && negb (is_False archive_matches)); [apply IH|].
    destruct (is_False (matches x (name archive) (version archive))) eqn:E;
      [|apply IH].
    exfalso. apply Hx. unfold reports.
    destruct (matches x (name archive) (version archive)) as [[]|];
      first [reflexivity | discriminate E].
Qed.

(** Without a conflict every set is evaluated. *)
Lemma match_loop_no_conflict (archive : DebArchive VC)
    (sets : list RelationshipSet)
    (archive_matches : option bool) (log : list RelationshipSet) :
  Forall (no_conflict matches archive) sets ->
  archive_matches <> Some false ->
  match_loop matches archive sets archive_matches log
  = (peaceful_verdict matches archive archive_matches sets, (log ++ sets)%list).
Proof.
  intros Hsets. revert archive_matches log.
  induction Hsets as [|x sets Hx _ IH]; intros archive_matches log Ham.
  - unfold peaceful_verdict. simpl. now rewrite app_nil_r.
  - cbn [match_loop call_matches]. unfold peaceful_verdict.
    cbn [existsb].
    replace (log ++ x :: sets)%list with ((log ++ [x]) ++ sets)%list
      by (rewrite <- app_assoc; reflexivity).
    assert (Hnf : is_False archive_matches = false)
      by (destruct archive_matches as [[]|]; simpl; congruence).
    rewrite Hnf. simpl negb. rewrite andb_true_r.
    destruct (matches x (name archive) (version archive)) as [[]|] eqn:E.
    + simpl. rewrite IH by discriminate. unfold peaceful_verdict.
      now destruct (existsb _ sets).
    + exfalso. now apply Hx.
    + simpl. rewrite IH by assumption. reflexivity.
Qed.

(** C4.  A conflict is final and ends the evaluation: when a set
    reports a conflict and no set before it does, the verdict is the
    conflict and the sets evaluated are those up to the conflicting one,
    none after it, whatever the later sets would report.  A satisfied
    report does not end the evaluation: the sets after it are evaluated
    up to the first conflict, which overturns it; without any conflict
    all sets are evaluated. *)
Theorem match_relationships_conflict_is_terminal (archive : DebArchive VC) :
  (forall before r after,
      Forall (no_conflict matches archive) before ->
      reports matches archive (Some false) r ->
      match_relationships_traced matches archive (before ++ r :: after)
      = (Some false, (before ++ [r])%list))
  /\ (forall before satisfied between r after,
      Forall (no_conflict matches archive) before ->
      reports matches archive (Some true) satisfied ->
      Forall (no_conflict matches archive) between ->
      reports matches archive (Some false) r ->
      match_relationships_traced matches archive
        (before ++ satisfied :: between ++ r :: after)
      = (Some false, (before ++ satisfied :: between ++ [r])%list))
  /\ (forall sets,
      Forall (no_conflict matches archive) sets ->
      match_relationships_traced matches archive sets
      = (peaceful_verdict matches archive None sets, sets)).
Proof.
  split; [|split].
  - intros before r after Hb Hr. unfold match_relationships_traced.
    now rewrite match_loop_first_conflict.
  - intros before satisfied between r after Hb Hs Hbt Hr.
    unfold match_relationships_traced.
    replace (before ++ satisfied :: between ++ r :: after)%list
      with ((before ++ satisfied :: between) ++ r :: after)%list
      by (rewrite <- app_assoc; reflexivity).
    rewrite match_loop_first_conflict; [| |assumption].
    + rewrite <- app_assoc. reflexivity.
    + apply Forall_app. split; [assumption|].
      constructor; [|assumption].
      unfold no_conflict, reports in *. congruence.
  - intros sets Hs. unfold match_relationships_traced.
    now rewrite match_loop_no_conflict.
Qed.

End RelationshipFacts.

(** ** The ordering key *)

Section ToTupleFacts.
Context {VC : VersionClass}.

(** Without the literal text [original_filename] among its attributes,
    the tuple of an archive holds all four of them. *)
Lemma to_tuple_all_attributes (archive : DebArchive VC) :
  name archive <> "original_filename" ->
  architecture archive <> "original_filename" ->
  original_filename archive <> Some "original_filename" ->
  to_tuple archive = astuple archive.
Proof.
  intros Hn Ha Ho. unfold to_tuple, astuple, values, to_dict.
  cbn [map snd List.filter py_eq].
  apply String.eqb_neq in Hn, Ha. rewrite Hn, Ha. cbn [negb].
  destruct (original_filename archive) as [o|]; [|reflexivity].
  cbn [of_optional py_eq].
  assert (Hneq : o <> "original_filename") by congruence.
  apply String.eqb_neq in Hneq. now rewrite Hneq.
Qed.

(** X5.  Two archives that agree on name and architecture and differ in
    [original_filename] never have [==] tuples, whatever their
    versions. *)
Lemma to_tuple_tells_original_filename (x y : DebArchive VC) :
  name x = name y ->
  architecture x = architecture y ->
  original_filename x <> original_filename y ->
  tuple_eq (to_tuple x) (to_tuple y) = false.
Proof.
  destruct x as [n v a o], y as [n' v' a' o']. cbn [name architecture
    original_filename]. intros <- <- Ho.
  unfold to_tuple, values, to_dict.
  cbn [map snd List.filter py_eq name version architecture original_filename].
  assert (Hlast : forall s s' : string, Some s <> Some s' ->
                                        String.eqb s s' = false).
  { intros s s' H. apply String.eqb_neq. congruence. }
  destruct (String.eqb n "original_filename"),
           (String.eqb a "original_filename");
    destruct o as [o|], o' as [o'|]; try congruence;
    cbn [of_optional py_eq negb];
    try destruct (String.eqb o "original_filename") eqn:E1;
    try destruct (String.eqb o' "original_filename") eqn:E2;
    cbn [negb tuple_eq py_eq];
    rewrite ?andb_false_r; try reflexivity;
    try (rewrite (Hlast o o' Ho), ?andb_false_r; reflexivity).
  all: apply String.eqb_eq in E1, E2; congruence.
Qed.

End ToTupleFacts.

(** ** The batch functions: empty and invalid input *)

Section BatchFacts.
Context {VC : VersionClass}.

(** A comprehension raises what its first failing element raises. *)
Lemma comprehension_first_failure {A B : Type} (f : A -> result B)
    (good : list A) (x : A) (rest : list A) (e : exn) :
  Forall (fun y => is_ok (f y) = true) good ->
  f x = Raise e ->
  comprehension f (good ++ x :: rest) = Raise e.
Proof.
  intros Hgood Hx. induction Hgood as [|y good Hy _ IH]; simpl.
  - now rewrite Hx.
  - destruct (f y); [|discriminate]. simpl. now rewrite IH.
Qed.

Lemma comprehension_raises {A B : Type} (f : A -> result B)
    (l : list A) (x : A) (e : exn) :
  In x l -> f x = Raise e -> exists e', comprehension f l = Raise e'.
Proof.
  intros Hin Hx. induction l as [|y l IH]; [contradiction|]. simpl.
  destruct (f y) as [b|e'] eqn:Ey; [|now exists e'].
  destruct Hin as [->|Hin]; [congruence|].
  destruct (IH Hin) as [e' He']. exists e'. simpl. now rewrite He'.
Qed.

Lemma comprehension_Forall2 {A B : Type} (f : A -> result B)
    (l : list A) (r : list B) :
  comprehension f l = Ok r <-> Forall2 (fun x y => f x = Ok y) l r.
Proof.
  revert r. induction l as [|x l IH]; intros r; simpl.
  - split; [intros [= <-]; constructor | intros H; now inversion H].
  - destruct (f x) as [y|e] eqn:Ex; simpl.
    + destruct (comprehension f l) as [ys|e]; simpl.
      * split.
        -- intros [= <-]. constructor; [assumption | now apply IH].
        -- intros H. inversion H; subst.
           assert (y = y0) by congruence. subst.
           f_equal. f_equal.
           assert (Hys : Ok ys = Ok l') by now apply IH.
           now injection Hys.
      * split; [discriminate|].
        intros H. inversion H; subst.
        assert (Hys : Raise e = Ok l') by now apply IH. discriminate.
    + split; [discriminate|]. intros H. inversion H; congruence.
Qed.

(** C9.  On the empty list both batch functions return [None] and raise
    nothing, whereas a list that holds an element that does not parse
    makes both of them raise: no packages and invalid packages are told
    apart. *)
Theorem empty_input_is_not_an_error :
  find_latest_version (VC := VC) [] = Ok None
  /\ find_latest_versions (VC := VC) [] = Ok None
  /\ forall (packages : list (package VC)) (x : package VC) (e : exn),
      In x packages ->
      from_filename x = Raise e ->
      (exists e', find_latest_version packages = Raise e')
      /\ (exists e', find_latest_versions packages = Raise e').
Proof.
  split; [reflexivity|]. split; [reflexivity|].
  intros packages x e Hin Hx.
  destruct (comprehension_raises from_filename packages x e Hin Hx)
    as [e' He'].
  destruct packages as [|p packages]; [contradiction|].
  split; exists e'.
  - unfold find_latest_version, find_latest_version_checked.
    now rewrite He'.
  - unfold find_latest_versions. now rewrite He'.
Qed.

(** The names message has no replacement field: formatting leaves it
    as it is, whatever names are passed. *)
Lemma different_names_msg_unformatted (args : list string) :
  PyStr.format different_names_msg args = different_names_msg.
Proof. reflexivity. Qed.

End BatchFacts.

(** ** Sorting *)

Section SortFacts.
Context {A K : Type} (key : A -> K) (lt : K -> K -> result bool).
Context (ltb : A -> A -> bool).

Lemma stable_insert_perm (x : A) (l : list A) :
  Permutation (stable_insert ltb x l) (x :: l).
Proof.
  induction l as [|y l IH]; simpl; [reflexivity|].
  destruct (ltb x y); [reflexivity|].
  rewrite IH. apply perm_swap.
Qed.

Lemma stable_sort_onto_perm (acc l : list A) :
  Permutation (stable_sort_onto ltb acc l) (acc ++ l).
Proof.
  revert acc. induction l as [|x l IH]; intros acc; simpl.
  - now rewrite app_nil_r.
  - rewrite IH, stable_insert_perm. apply Permutation_middle.
Qed.

Lemma stable_sort_perm (l : list A) : Permutation (stable_sort ltb l) l.
Proof. apply stable_sort_onto_perm. Qed.

(** Where [<] answers as [ltb] says, the sort has the stable sorted
    permutation as its result. *)
Lemma insort_stable_insert (x : A) (l : list A) :
  (forall y, In y l -> lt (key x) (key y) = Ok (ltb x y)) ->
  insort key lt x l = Ok (stable_insert ltb x l).
Proof.
  induction l as [|y l IH]; intros H; simpl; [reflexivity|].
  rewrite (H y) by now left. simpl.
  destruct (ltb x y); [reflexivity|].
  rewrite IH; [reflexivity|]. intros z Hz. apply H. now right.
Qed.

Lemma sorted_onto_stable_sort (acc l : list A) :
  (forall x y, In x (acc ++ l) -> In y (acc ++ l) ->
               lt (key x) (key y) = Ok (ltb x y)) ->
  sorted_onto key lt acc l = Ok (stable_sort_onto ltb acc l).
Proof.
  revert acc. induction l as [|x l IH]; intros acc H; simpl; [reflexivity|].
  rewrite insort_stable_insert.
  - simpl. apply IH. intros a b Ha Hb.
    assert (Hin : forall z, In z (stable_insert ltb x acc ++ l) ->
                            In z (acc ++ x :: l)).
    { intros z Hz. apply in_app_or in Hz as [Hz|Hz].
      - apply (Permutation_in _ (stable_insert_perm x acc)) in Hz.
        destruct Hz as [<-|Hz]; apply in_or_app; [right; now left | now left].
      - apply in_or_app. right. now right. }
    apply H; now apply Hin.
  - intros y Hy. apply H; apply in_or_app; [right; now left | now left].
Qed.

Lemma sorted_stable_sort (l : list A) :
  (forall x y, In x l -> In y l -> lt (key x) (key y) = Ok (ltb x y)) ->
  sorted key lt l = Ok (stable_sort ltb l).
Proof. intros H. apply sorted_onto_stable_sort. exact H. Qed.

(** For a transitive and irreflexive [ltb] the result is sorted: no
    element is greater than an element behind it. *)
Section Sortedness.
Hypothesis ltb_transitive :
  forall x y z, ltb x y = true -> ltb y z = true -> ltb x z = true.
Hypothesis ltb_irreflexive : forall x, ltb x x = false.

Lemma ltb_asymmetric (x y : A) : ltb x y = true -> ltb y x = false.
Proof.
  intros H. destruct (ltb y x) eqn:E; [|reflexivity].
  rewrite <- (ltb_irreflexive x). symmetry. now apply (ltb_transitive x y x).
Qed.

Lemma stable_insert_sorted (x : A) (l : list A) :
  StronglySorted (not_above ltb) l ->
  StronglySorted (not_above ltb) (stable_insert ltb x l).
Proof.
  induction 1 as [|y l Hl IH Hy]; simpl.
  - constructor; constructor.
  - destruct (ltb x y) eqn:E.
    + constructor; [constructor; assumption|].
      constructor; [now apply ltb_asymmetric|].
      rewrite List.Forall_forall in Hy |- *. intros z Hz.
      unfold not_above. destruct (ltb z x) eqn:E'; [|reflexivity].
      rewrite <- (Hy z Hz). symmetry. now apply (ltb_transitive z x y).
    + constructor; [assumption|].
      rewrite List.Forall_forall in Hy |- *. intros z Hz.
      apply (Permutation_in _ (stable_insert_perm x l)) in Hz.
      destruct Hz as [<-|Hz]; [exact E | now apply Hy].
Qed.

Lemma stable_sort_onto_sorted (acc l : list A) :
  StronglySorted (not_above ltb) acc ->
  StronglySorted (not_above ltb) (stable_sort_onto ltb acc l).
Proof.
  revert acc. induction l as [|x l IH]; intros acc H; simpl; [assumption|].
  apply IH. now apply stable_insert_sorted.
Qed.

Lemma stable_sort_sorted (l : list A) :
  StronglySorted (not_above ltb) (stable_sort ltb l).
Proof. apply stable_sort_onto_sorted. constructor. Qed.

(** The last element of a sorted list is below none of its elements. *)
Lemma sorted_last_maximal (l : list A) (m : A) :
  StronglySorted (not_above ltb) (l ++ [m]) ->
  forall z, In z (l ++ [m]) -> ltb m z = false.
Proof.
  induction l as [|y l IH]; simpl; intros H z Hz.
  - destruct Hz as [<-|[]]. apply ltb_irreflexive.
  - inversion H as [|? ? Hl Hy]; subst.
    destruct Hz as [<-|Hz]; [|now apply IH].
    rewrite List.Forall_forall in Hy. apply Hy. apply in_or_app. right. now left.
Qed.
End Sortedness.
End SortFacts.


(** ** The order of the attributes *)

Section LexFacts.
Context {A B : Type} (eqA ltA : A -> A -> bool) (ltB : B -> B -> bool).
Hypothesis orderA : component_order eqA ltA.

Lemma lex_transitive :
  (forall x y z, ltB x y = true -> ltB y z = true -> ltB x z = true) ->
  forall x y z,
    lex eqA ltA ltB x y = true -> lex eqA ltA ltB y z = true ->
    lex eqA ltA ltB x z = true.
Proof.
  intros transB [a b] [a' b'] [a'' b'']. unfold lex. cbn [fst snd].
  destruct orderA as [Hrefl Hsym Htrans Hlt Hne Hl Hr].
  destruct (eqA a a') eqn:E1, (eqA a' a'') eqn:E2; intros H1 H2.
  - rewrite (Htrans _ _ _ E1 E2). now apply (transB b b' b'').
  - destruct (eqA a a'') eqn:E3.
    + rewrite (Htrans _ _ _ (Hsym _ _ E1) E3) in E2. discriminate.
    + now rewrite (Hl _ _ a'' E1).
  - destruct (eqA a a'') eqn:E3.
    + rewrite (Htrans _ _ _ E3 (Hsym _ _ E2)) in E1. discriminate.
    + now rewrite <- (Hr _ _ a E2).
  - rewrite (Hne _ _ (Hlt _ _ _ H1 H2)). now apply (Hlt a a' a'').
Qed.

Lemma lex_irreflexive :
  (forall x, ltB x x = false) -> forall x, lex eqA ltA ltB x x = false.
Proof.
  intros irreflB [a b]. unfold lex. cbn [fst snd].
  destruct orderA as [Hrefl _ _ _ _ _ _]. now rewrite Hrefl.
Qed.
End LexFacts.

Lemma string_ltb_lt (a b : string) :
  String.ltb a b = true <-> String_as_OT.lt a b.
Proof.
  rewrite <- String_as_OT.cmp_lt. unfold String.ltb, String_as_OT.cmp.
  destruct (String.compare a b); split; congruence.
Qed.

Lemma string_ltb_irreflexive (a : string) : String.ltb a a = false.
Proof.
  destruct (String.ltb a a) eqn:E; [|reflexivity].
  apply string_ltb_lt in E. apply String_as_OT.lt_not_eq in E.
  exfalso. apply E. reflexivity.
Qed.

Lemma string_ltb_transitive (a b c : string) :
  String.ltb a b = true -> String.ltb b c = true -> String.ltb a c = true.
Proof.
  rewrite !string_ltb_lt. apply String_as_OT.lt_trans.
Qed.

(** Strings with [==] and [<] are a component of a key. *)
Lemma string_order : component_order String.eqb String.ltb.
Proof.
  constructor.
  - apply String.eqb_refl.
  - intros x y H. apply String.eqb_eq in H. subst. apply String.eqb_refl.
  - intros x y z H1 H2. apply String.eqb_eq in H1, H2. subst.
    apply String.eqb_refl.
  - apply string_ltb_transitive.
  - intros x y H. apply String.eqb_neq. intros ->.
    rewrite string_ltb_irreflexive in H. discriminate.
  - intros x y z H. apply String.eqb_eq in H. now subst.
  - intros x y z H. apply String.eqb_eq in H. now subst.
Qed.

Section AttributeOrderFacts.
Context {VC : VersionClass}.

(** On archives with an [original_filename], the order that [attrs]
    generates never raises and is the order of the four attributes. *)
Lemma DebArchive_lt_attribute_lt (a b : DebArchive VC) :
  original_filename a <> None ->
  original_filename b <> None ->
  DebArchive_lt a b = Ok (attribute_lt a b).
Proof.
  destruct a as [n v ar [s|]], b as [n' v' ar' [s'|]];
    cbn [original_filename]; intros Ha Hb; try congruence.
  unfold DebArchive_lt, astuple, attribute_lt, lex, filename_text.
  cbn [name version architecture original_filename of_optional fst snd
       tuple_lt py_eq py_lt].
  destruct (String.eqb n n'); [|reflexivity].
  destruct (Version_eq v v'); [|reflexivity].
  destruct (String.eqb ar ar'); [|reflexivity].
  destruct (String.eqb s s') eqn:E; [|reflexivity].
  apply String.eqb_eq in E. subst. now rewrite string_ltb_irreflexive.
Qed.

(** So is the order of the sort keys on plain archives. *)
Lemma to_tuple_lt_attribute_lt (a b : DebArchive VC) :
  plain a -> plain b ->
  tuple_lt (to_tuple a) (to_tuple b) = Ok (attribute_lt a b).
Proof.
  intros (Hn & Ha & s & Hs & Hs') (Hn' & Ha' & s' & Ht & Ht').
  rewrite !to_tuple_all_attributes by congruence.
  apply DebArchive_lt_attribute_lt; congruence.
Qed.



(** What [from_filename] builds from a string is plain: no component
    of a stem holds an underscore, and [original_filename] is not a
    package file name. *)
Lemma from_filename_plain (s : string) (archive : DebArchive VC) :
  from_filename (Filename s) = Ok archive -> plain archive.
Proof.
  intros H.
  destruct (from_filename_ok_inv s archive H) as (_ & evr & _ & _ & Ho).
  destruct (from_filename_no_underscore s archive H) as [Hn Ha].
  split; [|split].
  - intros E. rewrite E in Hn. discriminate.
  - intros E. rewrite E in Ha. discriminate.
  - exists s. split; [assumption|]. intros ->.
    rewrite from_filename_unknown_extension in H; [discriminate|].
    intros [E|E]; discriminate E.
Qed.

Section WithOrder.
Context {VO : VersionOrder VC}.

Lemma attribute_lt_transitive (a b c : DebArchive VC) :
  attribute_lt a b = true -> attribute_lt b c = true ->
  attribute_lt a c = true.
Proof.
  unfold attribute_lt. apply lex_transitive; [exact string_order|].
  apply lex_transitive; [exact version_order|].
  apply lex_transitive; [exact string_order|].
  apply string_ltb_transitive.
Qed.

Lemma attribute_lt_irreflexive (a : DebArchive VC) : attribute_lt a a = false.
Proof.
  unfold attribute_lt. apply lex_irreflexive; [exact string_order|].
  apply lex_irreflexive; [exact version_order|].
  apply lex_irreflexive; [exact string_order|].
  apply string_ltb_irreflexive.
Qed.
End WithOrder.
End AttributeOrderFacts.


(** ** [find_latest_version] on plain archives *)

Section LatestFacts.
Context {VC : VersionClass}.

Lemma names_of_one_package (l : list (DebArchive VC)) (n : string) :
  (forall a, In a l -> name a = n) ->
  (size (list_to_set (map name l) : gset string) <= 1)%nat.
Proof.
  intros H. rewrite <- (size_singleton (C := gset string) n).
  apply subseteq_size. intros k Hk.
  apply elem_of_list_to_set, list_elem_of_In, in_map_iff in Hk
    as (a & <- & Ha).
  apply elem_of_singleton. now apply H.
Qed.

Lemma names_of_two_packages (l : list (DebArchive VC)) (a b : DebArchive VC) :
  In a l -> In b l -> name a <> name b ->
  (1 < size (list_to_set (map name l) : gset string))%nat.
Proof.
  intros Ha Hb Hne.
  assert (Hsub : ({[name a]} ∪ {[name b]} : gset string)
                   ⊆ list_to_set (map name l)).
  { intros k Hk. apply elem_of_list_to_set, list_elem_of_In, in_map_iff.
    apply elem_of_union in Hk as [Hk|Hk]; apply elem_of_singleton in Hk;
      subst k; eauto. }
  apply subseteq_size in Hsub.
  rewrite size_union in Hsub by set_solver.
  rewrite !size_singleton in Hsub. lia.
Qed.

Lemma last_item_snoc (l : list (DebArchive VC)) (m : DebArchive VC) :
  last_item (l ++ [m]) = Ok m.
Proof. unfold last_item. now rewrite rev_unit. Qed.

(** The sort of [find_latest_version] on plain archives. *)
Lemma sorted_to_tuple_plain (archives : list (DebArchive VC)) :
  Forall plain archives ->
  sorted to_tuple tuple_lt archives = Ok (stable_sort attribute_lt archives).
Proof.
  intros Hplain. apply sorted_stable_sort. intros x y Hx Hy.
  rewrite List.Forall_forall in Hplain.
  apply to_tuple_lt_attribute_lt; now apply Hplain.
Qed.

(** Sorting names never raises. *)
Lemma sorted_names (names : list string) :
  sorted (fun n => n) (fun a b => Ok (String.ltb a b)) names
  = Ok (stable_sort String.ltb names).
Proof. apply sorted_stable_sort. reflexivity. Qed.

(** C6, the part that holds.  Plain archives of more than one name are
    refused with a [ValueError]; its message is the bare text. *)
Lemma find_latest_version_checked_names (packages : list (package VC))
    (archives : list (DebArchive VC)) (a b : DebArchive VC) :
  comprehension from_filename packages = Ok archives ->
  Forall plain archives ->
  In a archives -> In b archives -> name a <> name b ->
  find_latest_version_checked packages
  = Raise (ValueError different_names_msg).
Proof.
  intros Hparse Hplain Ha Hb Hne. unfold find_latest_version_checked.
  rewrite Hparse. cbn [bind].
  rewrite (sorted_to_tuple_plain _ Hplain). cbn [bind].
  pose proof (stable_sort_perm attribute_lt archives) as Hperm.
  assert (Hsize : (1 <? size (list_to_set
                     (map name (stable_sort attribute_lt archives))
                       : gset string))%nat = true).
  { apply Nat.ltb_lt. apply (names_of_two_packages _ a b); try assumption.
    - now apply (Permutation_in _ (Permutation_sym Hperm)).
    - now apply (Permutation_in _ (Permutation_sym Hperm)). }
  rewrite Hsize, sorted_names. reflexivity.
Qed.

Section WithOrder.
Context {VO : VersionOrder VC}.

(** On a non-empty list of plain archives of one name the body of
    [find_latest_version] returns an element below none. *)
Lemma find_latest_version_checked_plain (packages : list (package VC))
    (archives : list (DebArchive VC)) :
  archives <> [] ->
  comprehension from_filename packages = Ok archives ->
  Forall plain archives ->
  (forall a b, In a archives -> In b archives -> name a = name b) ->
  exists latest,
    find_latest_version_checked packages = Ok latest
    /\ In latest archives
    /\ forall z, In z archives -> attribute_lt latest z = false.
Proof.
  intros Hne Hparse Hplain Hnames. unfold find_latest_version_checked.
  rewrite Hparse. cbn [bind].
  rewrite (sorted_to_tuple_plain _ Hplain). cbn [bind].
  pose proof (stable_sort_perm attribute_lt archives) as Hperm.
  pose proof (stable_sort_sorted attribute_lt attribute_lt_transitive
                attribute_lt_irreflexive archives) as Hsorted.
  destruct archives as [|a0 archives0] eqn:Earchives; [congruence|].
  rewrite <- Earchives in *.
  assert (Hsize : (1 <? size (list_to_set
                     (map name (stable_sort attribute_lt archives))
                       : gset string))%nat = false).
  { apply Nat.ltb_ge. apply (names_of_one_package _ (name a0)).
    intros a Ha. apply (Permutation_in _ Hperm) in Ha.
    apply Hnames; [assumption|]. rewrite Earchives. now left. }
  rewrite Hsize.
  destruct (exists_last (l := stable_sort attribute_lt archives))
    as (l & m & El).
  { intros E. rewrite E in Hperm. apply Permutation_nil in Hperm.
    congruence. }
  rewrite El in *. exists m. split; [apply last_item_snoc|]. split.
  - apply (Permutation_in _ Hperm). apply in_or_app. right. now left.
  - intros z Hz.
    apply (sorted_last_maximal attribute_lt attribute_lt_irreflexive l m
             Hsorted).
    now apply (Permutation_in _ (Permutation_sym Hperm)).
Qed.

End WithOrder.

(** File names parse into plain archives. *)
Lemma comprehension_filenames_plain (filenames : list string)
    (archives : list (DebArchive VC)) :
  comprehension from_filename (map Filename filenames) = Ok archives ->
  Forall plain archives.
Proof.
  revert archives. induction filenames as [|s filenames IH];
    intros archives H; cbn [map comprehension] in H.
  - injection H as <-. constructor.
  - destruct (from_filename (Filename s)) as [a|] eqn:Ea;
      cbn [bind] in H; [|discriminate].
    destruct (comprehension from_filename (map Filename filenames))
      as [rest|]; cbn [bind] in H; [|discriminate].
    injection H as <-.
    constructor; [now apply (from_filename_plain s) | now apply IH].
Qed.

End LatestFacts.


(** ** [find_latest_versions] on plain archives *)

Section GroupFacts.
Context {VC : VersionClass}.

Lemma string_ltb_antisymmetric (a b : string) :
  String.ltb a b = false -> String.ltb b a = false -> a = b.
Proof.
  unfold String.ltb. rewrite (String.compare_antisym b a).
  destruct (String.compare a b) eqn:E; cbn [CompOpp]; try discriminate.
  intros _ _. now apply String.compare_eq_iff.
Qed.


Lemma groupby_nil_inv {A : Type} (key : A -> string) (l : list A) :
  groupby key l = [] -> l = [].
Proof.
  destruct l as [|x l]; [reflexivity|]. simpl.
  destruct (groupby key l) as [|[k g] rest]; [discriminate|].
  destruct (String.eqb (key x) k); discriminate.
Qed.

Lemma groupby_concat {A : Type} (key : A -> string) (l : list A) :
  concat (map snd (groupby key l)) = l.
Proof.
  induction l as [|x l IH]; [reflexivity|]. simpl.
  destruct (groupby key l) as [|[k g] rest] eqn:E.
  - apply groupby_nil_inv in E. now subst.
  - destruct (String.eqb (key x) k); simpl in *; now rewrite IH.
Qed.

(** Every group is a non-empty run of elements with the key of the
    group, and the first group starts with the head of the list. *)
Lemma groupby_groups {A : Type} (key : A -> string) (l : list A) :
  Forall (fun kg => snd kg <> [] /\ forall x, In x (snd kg) -> key x = fst kg)
    (groupby key l).
Proof.
  induction l as [|x l IH]; [constructor|]. simpl.
  destruct (groupby key l) as [|[k g] rest] eqn:E.
  - constructor; [|constructor]. split; [discriminate|].
    intros y [<-|[]]. reflexivity.
  - inversion IH as [|? ? [Hg Hk] Hrest]; subst.
    destruct (String.eqb (key x) k) eqn:Ek.
    + apply String.eqb_eq in Ek. constructor; [|assumption].
      split; [discriminate|]. intros y [<-|Hy]; [assumption | now apply Hk].
    + constructor; [|now constructor].
      split; [discriminate|]. intros y [<-|[]]. reflexivity.
Qed.




Lemma comprehension_archives (archives : list (DebArchive VC)) :
  comprehension from_filename (map Archive archives) = Ok archives.
Proof.
  induction archives as [|a archives IH]; [reflexivity|].
  cbn [map comprehension from_filename bind]. now rewrite IH.
Qed.


Section WithOrder.
Context {VO : VersionOrder VC}.


End WithOrder.
End GroupFacts.


(** ** [match_relationships]: the verdict in closed form *)

Section VerdictFacts.
Context {VC : VersionClass} {RelationshipSet : Type}.
Context (matches : RelationshipSet -> string -> Version -> option bool).

(** A sequence has no conflict, or it has a first one. *)
Lemma first_conflict_or_none (archive : DebArchive VC)
    (sets : list RelationshipSet) :
  Forall (no_conflict matches archive) sets
  \/ exists before r after,
       sets = (before ++ r :: after)%list
       /\ Forall (no_conflict matches archive) before
       /\ reports matches archive (Some false) r.
Proof.
  induction sets as [|x sets IH]; [left; constructor|].
  destruct (matches x (name archive) (version archive)) as [[]|] eqn:E.
  - destruct IH as [IH|(before & r & after & -> & Hb & Hr)].
    + left. constructor; [|assumption].
      unfold no_conflict, reports. congruence.
    + right. exists (x :: before), r, after. split; [reflexivity|].
      split; [|assumption]. constructor; [|assumption].
      unfold no_conflict, reports. congruence.
  - right. exists [], x, sets. split; [reflexivity|].
    split; [constructor | exact E].
  - destruct IH as [IH|(before & r & after & -> & Hb & Hr)].
    + left. constructor; [|assumption].
      unfold no_conflict, reports. congruence.
    + right. exists (x :: before), r, after. split; [reflexivity|].
      split; [|assumption]. constructor; [|assumption].
      unfold no_conflict, reports. congruence.
Qed.

Lemma no_conflict_existsb (archive : DebArchive VC)
    (sets : list RelationshipSet) :
  Forall (no_conflict matches archive) sets ->
  existsb (fun r => is_False (matches r (name archive) (version archive)))
    sets = false.
Proof.
  induction 1 as [|x sets Hx _ IH]; [reflexivity|]. cbn [existsb].
  rewrite IH, orb_false_r. unfold no_conflict, reports in Hx.
  destruct (matches x (name archive) (version archive)) as [[]|];
    first [reflexivity | congruence].
Qed.

Lemma conflict_existsb (archive : DebArchive VC)
    (before after : list RelationshipSet) (r : RelationshipSet) :
  reports matches archive (Some false) r ->
  existsb (fun r => is_False (matches r (name archive) (version archive)))
    (before ++ r :: after) = true.
Proof.
  intros Hr. rewrite existsb_app. cbn [existsb].
  unfold reports in Hr. rewrite Hr. cbn [is_False].
  now rewrite orb_true_r.
Qed.

(** The loop computes the closed form. *)
Lemma match_relationships_closed_form (archive : DebArchive VC)
    (sets : list RelationshipSet) :
  match_relationships matches archive sets = verdict_of matches archive sets.
Proof.
  unfold match_relationships, match_relationships_traced, verdict_of.
  destruct (first_conflict_or_none archive sets)
    as [Hnone|(before & r & after & -> & Hb & Hr)].
  - rewrite match_loop_no_conflict by (assumption || discriminate).
    rewrite (no_conflict_existsb archive sets Hnone). reflexivity.
  - rewrite match_loop_first_conflict by assumption.
    now rewrite (conflict_existsb archive before after r Hr).
Qed.

Lemma existsb_Exists_reports (archive : DebArchive VC) (b : bool)
    (sets : list RelationshipSet) :
  existsb (fun r => (if b then is_True else is_False)
                      (matches r (name archive) (version archive))) sets
  = true
  <-> Exists (reports matches archive (Some b)) sets.
Proof.
  rewrite existsb_exists, List.Exists_exists. unfold reports.
  split; intros (r & Hin & Hr); exists r; (split; [assumption|]).
  - destruct b, (matches r (name archive) (version archive)) as [[]|];
      first [reflexivity | discriminate Hr].
  - rewrite Hr. now destruct b.
Qed.

(** X16.  The verdict is [False] exactly when some relationship set reports
    [False]; it is [True] exactly when none reports [False] and some set
    reports [True]; it is [None] exactly when every set reports something
    else than [True] and [False], so with no set at all. *)
Theorem match_relationships_verdict (archive : DebArchive VC)
    (sets : list RelationshipSet) :
  (match_relationships matches archive sets = Some false
   <-> Exists (reports matches archive (Some false)) sets)
  /\ (match_relationships matches archive sets = Some true
      <-> ~ Exists (reports matches archive (Some false)) sets
          /\ Exists (reports matches archive (Some true)) sets)
  /\ (match_relationships matches archive sets = None
      <-> ~ Exists (reports matches archive (Some false)) sets
          /\ ~ Exists (reports matches archive (Some true)) sets).
Proof.
  rewrite match_relationships_closed_form. unfold verdict_of.
  rewrite <- (existsb_Exists_reports archive false sets).
  rewrite <- (existsb_Exists_reports archive true sets).
  cbn beta iota.
  destruct (existsb (fun r => is_False _) sets);
    destruct (existsb (fun r => is_True _) sets);
    repeat split; intros; try discriminate; try congruence;
    try (split; congruence);
    try (destruct H; congruence).
Qed.

(** X17.  The verdict does not depend on the order of the relationship sets
    (the sets that are evaluated do). *)
Theorem match_relationships_order_irrelevant (archive : DebArchive VC)
    (sets sets' : list RelationshipSet) :
  Permutation sets sets' ->
  match_relationships matches archive sets
  = match_relationships matches archive sets'.
Proof.
  intros Hperm. rewrite !match_relationships_closed_form. unfold verdict_of.
  assert (Hex : forall f : RelationshipSet -> bool,
             existsb f sets = existsb f sets').
  { intros f. induction Hperm; cbn [existsb].
    - reflexivity.
    - now rewrite IHHperm.
    - now rewrite !orb_assoc, (orb_comm (f y)).
    - congruence. }
  now rewrite !Hex.
Qed.

(** X18.  Evaluating one sequence behind another gives the verdicts combined:
    a conflict in either part is a conflict, else a satisfied report in
    either part is satisfied. *)
Theorem match_relationships_app (archive : DebArchive VC)
    (sets sets' : list RelationshipSet) :
  match_relationships matches archive (sets ++ sets')
  = combine_verdicts (match_relationships matches archive sets)
      (match_relationships matches archive sets').
Proof.
  rewrite !match_relationships_closed_form. unfold verdict_of.
  rewrite !existsb_app.
  destruct (existsb (fun r => is_False _) sets),
           (existsb (fun r => is_False _) sets'),
           (existsb (fun r => is_True _) sets),
           (existsb (fun r => is_True _) sets'); reflexivity.
Qed.

(** X19.  The sets that are evaluated are a prefix of the sets given.  It is
    the whole sequence unless the verdict is [False]; then it ends with
    the first set that reports [False]. *)
Theorem match_relationships_evaluates_prefix (archive : DebArchive VC)
    (sets : list RelationshipSet) :
  exists rest,
    sets = (snd (match_relationships_traced matches archive sets) ++ rest)%list
    /\ (match_relationships matches archive sets <> Some false -> rest = [])
    /\ (match_relationships matches archive sets = Some false ->
        exists before r,
          snd (match_relationships_traced matches archive sets)
          = (before ++ [r])%list
          /\ Forall (no_conflict matches archive) before
          /\ reports matches archive (Some false) r).
Proof.
  unfold match_relationships, match_relationships_traced.
  destruct (first_conflict_or_none archive sets)
    as [Hnone|(before & r & after & -> & Hb & Hr)].
  - rewrite match_loop_no_conflict by (assumption || discriminate).
    cbn [fst snd app]. exists []. split; [now rewrite app_nil_r|].
    split; [reflexivity|].
    unfold peaceful_verdict. destruct (existsb _ sets); discriminate.
  - rewrite match_loop_first_conflict by assumption.
    cbn [fst snd app]. exists after. split.
    + rewrite <- app_assoc. reflexivity.
    + split; [congruence|]. intros _. now exists before, r.
Qed.

End VerdictFacts.

(** ** More on strings and paths *)

Module NameFacts.
Import PyStr PyStrFacts PosixPath.

Lemma count_app (c : ascii) (u v : string) :
  count c (u ++ v) = (count c u + count c v)%nat.
Proof.
  induction u as [|a u IH]; [reflexivity|].
  rewrite append_cons. cbn [count]. rewrite IH. lia.
Qed.

(** A character does not occur exactly when [rfind] answers [-1]. *)
Lemma rfind_absent_iff (c : ascii) (s : string) :
  rfind c s = -1 <-> count c s = O.
Proof.
  induction s as [|a s IH]; [split; reflexivity|]. cbn [rfind count].
  pose proof (rfind_bounds c s) as Hb.
  destruct (0 <=? rfind c s) eqn:E.
  - apply Z.leb_le in E. split; [lia|].
    intros H. assert (Hc : count c s = O) by lia.
    apply IH in Hc. lia.
  - apply Z.leb_gt in E. assert (Hr : rfind c s = -1) by lia.
    apply IH in Hr. rewrite Hr.
    destruct (Ascii.eqb a c); split; intros H; first [discriminate | lia].
Qed.

Lemma length_app (u v : string) :
  String.length (u ++ v) = (String.length u + String.length v)%nat.
Proof.
  induction u as [|a u IH]; [reflexivity|].
  rewrite append_cons. cbn [String.length]. now rewrite IH.
Qed.

Lemma take_app_length (u v : string) : take (String.length u) (u ++ v) = u.
Proof.
  induction u as [|a u IH]; [reflexivity|].
  rewrite append_cons. cbn [String.length take]. now rewrite IH.
Qed.

Lemma append_assoc (u v w : string) : (u ++ v) ++ w = u ++ v ++ w.
Proof.
  induction u as [|a u IH]; [reflexivity|].
  rewrite !append_cons. now rewrite IH.
Qed.

Lemma append_nil_r (u : string) : u ++ "" = u.
Proof.
  induction u as [|a u IH]; [reflexivity|].
  rewrite append_cons. now rewrite IH.
Qed.

(** Behind the last separator there is no separator. *)
Lemma rfind_drop (c : ascii) (s : string) :
  rfind c (drop (Z.to_nat (rfind c s + 1)) s) = -1.
Proof.
  induction s as [|a s IH]; [reflexivity|]. cbn [rfind].
  pose proof (rfind_bounds c s) as Hb.
  destruct (0 <=? rfind c s) eqn:E.
  - apply Z.leb_le in E.
    replace (Z.to_nat (rfind c s + 1 + 1)) with (S (Z.to_nat (rfind c s + 1)))
      by lia.
    exact IH.
  - apply Z.leb_gt in E. assert (Hr : rfind c s = -1) by lia.
    destruct (Ascii.eqb a c) eqn:Ea.
    + change (Z.to_nat (0 + 1)) with 1%nat. cbn [drop]. exact Hr.
    + change (Z.to_nat (-1 + 1)) with 0%nat. cbn [drop rfind].
      rewrite Hr, Ea. reflexivity.
Qed.

(** The base name holds no slash, and is its own base name. *)
Lemma basename_no_slash (p : string) : rfind "/" (basename p) = -1.
Proof. unfold basename, slice_from. apply rfind_drop. Qed.

Lemma basename_of_name (f : string) : rfind "/" f = -1 -> basename f = f.
Proof. intros H. unfold basename, slice_from. now rewrite H. Qed.

Lemma basename_idempotent (p : string) : basename (basename p) = basename p.
Proof. apply basename_of_name, basename_no_slash. Qed.

(** Behind a directory prefix the base name is the rest of the path. *)
Lemma basename_directory (dir f : string) :
  directory_prefix dir -> rfind "/" f = -1 -> basename (dir ++ f) = f.
Proof.
  intros Hdir Hf. rewrite (PathFacts.basename_app _ _ Hf).
  destruct Hdir as [->|[d ->]]; [reflexivity|].
  unfold basename, slice_from.
  rewrite rfind_app_found by (cbn; lia).
  replace (Z.to_nat (Z.of_nat (String.length d) + rfind "/" "/" + 1))
    with (String.length (d ++ "/"))
    by (rewrite length_app; cbn; lia).
  rewrite <- (append_nil_r (d ++ "/")) at 2.
  now rewrite drop_app_length.
Qed.

(** The loop that skips leading dots finds a character that is no dot. *)
Lemma has_name_before_dot_found (p : string) (k : nat) (steps : nat)
    (i : nat) :
  (i <= k < i + steps)%nat ->
  String.eqb (slice (Z.of_nat k) (Z.of_nat k + 1) p) "." = false ->
  has_name_before_dot p (Z.of_nat i) steps = true.
Proof.
  revert i. induction steps as [|steps IH]; intros i Hk Hc; [lia|].
  cbn [has_name_before_dot].
  destruct (String.eqb (slice (Z.of_nat i) (Z.of_nat i + 1) p) ".") eqn:E;
    [|reflexivity].
  cbn [negb].
  assert (i <> k) by (intros ->; congruence).
  replace (Z.of_nat i + 1) with (Z.of_nat (S i)) by lia.
  apply IH; [lia | assumption].
Qed.

Lemma slice_one (u w : string) (c : ascii) :
  slice (Z.of_nat (String.length u)) (Z.of_nat (String.length u) + 1)
    (u ++ String c w)
  = String c "".
Proof.
  unfold slice.
  replace (Z.to_nat (Z.of_nat (String.length u) + 1
                     - Z.of_nat (String.length u))) with 1%nat by lia.
  rewrite Nat2Z.id, drop_app_length. reflexivity.
Qed.

(** A stem with a character that is no dot, followed by a dot and
    dot-free text: the stem and the extension are told apart there. *)
Lemma splitext_stem_extension (u w e : string) (c : ascii) :
  Ascii.eqb c "." = false ->
  rfind "/" (u ++ String c w) = -1 ->
  rfind "/" e = -1 ->
  rfind "." e = -1 ->
  splitext ((u ++ String c w) ++ String "." e)
  = (u ++ String c w, String "." e).
Proof.
  intros Hc Hslash He Hdot. unfold splitext.
  set (stem := u ++ String c w).
  assert (Hext : rfind "." (String "." e) = 0)
    by (cbn [rfind]; now rewrite Hdot).
  assert (Hsep : rfind "/" (stem ++ String "." e) = -1).
  { rewrite rfind_app_absent; [assumption|].
    cbn [rfind]. now rewrite He. }
  rewrite Hsep, rfind_app_found by lia. rewrite Hext, Z.add_0_r.
  assert (Hlt : (-1 <? Z.of_nat (String.length stem)) = true)
    by (apply Z.ltb_lt; lia).
  rewrite Hlt. cbn [andb].
  replace (-1 + 1) with (Z.of_nat 0) by reflexivity.
  rewrite (has_name_before_dot_found _ (String.length u)).
  - unfold slice_to, slice_from. rewrite Nat2Z.id.
    now rewrite take_app_length, drop_app_length.
  - subst stem. rewrite length_app. cbn [String.length]. lia.
  - subst stem. rewrite append_assoc, append_cons, slice_one.
    cbn [String.eqb]. rewrite Hc. reflexivity.
Qed.

(** [split] at the separators that join separator-free components. *)
Lemma split_clean (sep : ascii) (u : string) :
  count sep u = O -> split sep u = [u].
Proof.
  induction u as [|a u IH]; [reflexivity|]. cbn [count split].
  destruct (Ascii.eqb a sep); [discriminate|]. cbn [Nat.add].
  intros H. now rewrite (IH H).
Qed.

Lemma split_app_sep (sep : ascii) (u v : string) :
  count sep u = O ->
  split sep (u ++ String sep v) = u :: split sep v.
Proof.
  induction u as [|a u IH].
  - intros _. rewrite append_nil_l. cbn [split].
    now rewrite Ascii.eqb_refl.
  - cbn [count]. rewrite append_cons. cbn [split].
    destruct (Ascii.eqb a sep); [discriminate|]. cbn [Nat.add].
    intros H. now rewrite (IH H).
Qed.

(** Joining the components with the separator gives the string back. *)
Lemma split_join (sep : ascii) (s : string) :
  join (String sep "") (split sep s) = s.
Proof.
  unfold join. induction s as [|a s IH]; [reflexivity|]. cbn [split].
  destruct (Ascii.eqb a sep) eqn:E.
  - apply Ascii.eqb_eq in E. subst a.
    destruct (split sep s) as [|h t] eqn:Es.
    + pose proof (split_length sep s) as Hl. rewrite Es in Hl. discriminate.
    + cbn [String.concat] in *. rewrite IH. reflexivity.
  - destruct (split sep s) as [|h t] eqn:Es.
    + pose proof (split_length sep s) as Hl. rewrite Es in Hl. discriminate.
    + cbn [String.concat] in *. destruct t as [|h' t].
      * now rewrite IH.
      * rewrite append_cons. now rewrite IH.
Qed.

End NameFacts.

(** ** [from_filename]: names put together, and directories *)

Section FilenameFacts.
Context {VC : VersionClass}.
Import PyStr PyStrFacts PosixPath NameFacts.

Lemma package_filename_shape (n evr arch e : string) :
  package_filename n evr arch (String "." e)
  = (n ++ String "_" (evr ++ String "_" arch)) ++ String "." e.
Proof.
  unfold package_filename.
  change ("_" ++ evr ++ "_" ++ arch ++ String "." e)
    with (String "_" (evr ++ String "_" (arch ++ String "." e))).
  now rewrite !append_assoc, !append_cons, !append_assoc, !append_cons.
Qed.

Lemma recognized_extension_shape (extension : string) :
  recognized_extension extension ->
  exists e, extension = String "." e
            /\ rfind "/" e = -1 /\ rfind "." e = -1.
Proof. intros [->| ->]; eexists; repeat split; reflexivity. Qed.

(** X1.  A file name put together from a name, a version text and an
    architecture that hold no underscore and no slash, with a recognized
    extension and behind any directory, parses back into this name and
    this architecture, with the version that the parser makes of the
    version text and with the whole path as [original_filename]; it
    fails only as the version parser fails. *)
Theorem from_filename_of_package_filename
    (dir n evr arch extension : string) :
  directory_prefix dir ->
  recognized_extension extension ->
  count "_" n = O -> count "_" evr = O -> count "_" arch = O ->
  count "/" n = O -> count "/" evr = O -> count "/" arch = O ->
  from_filename (Filename (dir ++ package_filename n evr arch extension))
  = (v <-- Version_from_string evr ;;
     Ok (mkDebArchive n v arch
           (Some (dir ++ package_filename n evr arch extension)))).
Proof.
  intros Hdir Hext Hn He Ha Hn' He' Ha'.
  destruct (recognized_extension_shape extension Hext)
    as (e & Eext & Hslash & Hdot).
  set (stem := n ++ String "_" (evr ++ String "_" arch)).
  assert (Hstem_slash : rfind "/" stem = -1).
  { apply rfind_absent_iff. subst stem.
    rewrite count_app. cbn [count]. rewrite count_app. cbn [count].
    cbn [Ascii.eqb Bool.eqb]. lia. }
  assert (Hname : package_filename n evr arch extension
                  = stem ++ String "." e).
  { rewrite Eext. apply package_filename_shape. }
  assert (Hfile_slash : rfind "/" (stem ++ String "." e) = -1).
  { rewrite rfind_app_absent; [assumption|]. cbn [rfind].
    now rewrite Hslash. }
  assert (Hbase : basename (dir ++ package_filename n evr arch extension)
                  = stem ++ String "." e).
  { rewrite Hname. now apply basename_directory. }
  assert (Hsplit : splitext (stem ++ String "." e) = (stem, String "." e)).
  { apply splitext_stem_extension; try assumption. reflexivity. }
  apply from_filename_three_components.
  - unfold filename_extension. rewrite Hbase, Hsplit. cbn [snd].
    now rewrite <- Eext.
  - unfold filename_stem. rewrite Hbase, Hsplit. cbn [fst]. subst stem.
    rewrite (split_app_sep "_" n _ Hn), (split_app_sep "_" evr _ He).
    now rewrite (split_clean "_" arch Ha).
Qed.

(** X2.  Every name that parses is put together this way: its base name is
    the name, the version text and the architecture of the archive
    joined by underscores, followed by a recognized extension. *)
Theorem from_filename_filename_shape (s : string) (archive : DebArchive VC) :
  from_filename (Filename s) = Ok archive ->
  exists evr extension,
    recognized_extension extension
    /\ Version_from_string evr = Ok (version archive)
    /\ basename s
       = package_filename (name archive) evr (architecture archive) extension.
Proof.
  intros H.
  destruct (from_filename_ok_inv s archive H) as (Hext & evr & Hc & Ev & _).
  exists evr, (filename_extension s). split; [assumption|].
  split; [assumption|].
  rewrite <- (PathFacts.splitext_join (basename s)).
  fold (filename_stem s). fold (filename_extension s).
  rewrite <- (split_join "_" (filename_stem s)), Hc.
  unfold join, package_filename. cbn [String.concat].
  now rewrite !append_assoc.
Qed.

(** X3.  Only the base name counts: a path parses as its base name does, the
    errors included, and the path shows in [original_filename] alone. *)
Theorem from_filename_directory_irrelevant (s : string) :
  from_filename (Filename s)
  = (archive <-- from_filename (Filename (basename s)) ;;
     Ok (with_original_filename archive (Some s))).
Proof.
  rewrite !from_filename_string.
  unfold filename_extension, filename_stem.
  rewrite !basename_idempotent.
  fold (filename_extension s). fold (filename_stem s).
  destruct (negb (String.eqb (filename_extension s) ".deb"
                  || String.eqb (filename_extension s) ".udeb"));
    [reflexivity|].
  destruct (negb (Nat.eqb (List.length (split "_" (filename_stem s))) 3));
    [reflexivity|].
  destruct (split "_" (filename_stem s)) as [|n [|evr [|a [|? ?]]]];
    try reflexivity.
  destruct (Version_from_string evr); reflexivity.
Qed.

(** X4.  The sort key of an archive parsed from a string is made of its
    name, its version, its architecture and the string itself. *)
Theorem to_tuple_of_parsed (s : string) (archive : DebArchive VC) :
  from_filename (Filename s) = Ok archive ->
  to_tuple archive
  = [PStr (name archive); PVersion (version archive);
     PStr (architecture archive); PStr s].
Proof.
  intros H.
  destruct (from_filename_plain s archive H) as (Hn & Ha & f & Hf & Hf').
  destruct (from_filename_ok_inv s archive H) as (_ & evr & _ & _ & Ho).
  rewrite to_tuple_all_attributes by congruence.
  unfold astuple. now rewrite Ho.
Qed.

End FilenameFacts.

(** ** The batch functions: what a result is made of *)

Section SortedResultFacts.
Context {A K : Type} (key : A -> K) (lt : K -> K -> result bool).

(** A sort that does not raise returns the elements it was given. *)
Lemma insort_perm (x : A) (l r : list A) :
  insort key lt x l = Ok r -> Permutation r (x :: l).
Proof.
  revert r. induction l as [|y l IH]; intros r; cbn [insort].
  - intros [= <-]. reflexivity.
  - destruct (lt (key x) (key y)) as [[]|]; cbn [bind]; try discriminate.
    + intros [= <-]. reflexivity.
    + destruct (insort key lt x l) as [r'|]; cbn [bind]; [|discriminate].
      intros [= <-]. rewrite (IH r' eq_refl). apply perm_swap.
Qed.

Lemma sorted_onto_perm (acc l r : list A) :
  sorted_onto key lt acc l = Ok r -> Permutation r (acc ++ l).
Proof.
  revert acc. induction l as [|x l IH]; intros acc; cbn [sorted_onto].
  - intros [= <-]. now rewrite app_nil_r.
  - destruct (insort key lt x acc) as [acc'|] eqn:E; cbn [bind];
      [|discriminate].
    intros H. rewrite (IH _ H), (insort_perm _ _ _ E).
    apply Permutation_middle.
Qed.

Lemma sorted_perm (l r : list A) :
  sorted key lt l = Ok r -> Permutation r l.
Proof. apply sorted_onto_perm. Qed.
End SortedResultFacts.

Section BatchResultFacts.
Context {VC : VersionClass}.

Lemma last_item_In (l : list (DebArchive VC)) (m : DebArchive VC) :
  last_item l = Ok m -> In m l.
Proof.
  unfold last_item. destruct (rev l) as [|p r] eqn:E; [discriminate|].
  intros [= <-]. apply in_rev. rewrite E. now left.
Qed.

Lemma names_of_one_package_inv (l : list (DebArchive VC))
    (a b : DebArchive VC) :
  (size (list_to_set (map name l) : gset string) <= 1)%nat ->
  In a l -> In b l -> name a = name b.
Proof.
  intros Hsize Ha Hb.
  destruct (string_dec (name a) (name b)) as [|Hne]; [assumption|].
  pose proof (names_of_two_packages l a b Ha Hb Hne). lia.
Qed.

(** What the body of [find_latest_version] returns is one of the parsed
    packages, and all of them have its name. *)
Lemma find_latest_version_checked_ok_inv (packages : list (package VC))
    (latest : DebArchive VC) :
  find_latest_version_checked packages = Ok latest ->
  exists archives,
    comprehension from_filename packages = Ok archives
    /\ In latest archives
    /\ forall a, In a archives -> name a = name latest.
Proof.
  unfold find_latest_version_checked.
  destruct (comprehension from_filename packages) as [archives|];
    cbn [bind]; [|discriminate].
  destruct (sorted to_tuple tuple_lt archives) as [S|] eqn:Esort;
    cbn [bind]; [|discriminate].
  pose proof (sorted_perm _ _ _ _ Esort) as Hperm.
  destruct (1 <? size (list_to_set (map name S) : gset string))%nat eqn:En.
  - destruct (sorted _ _ (elements _)); cbn [bind]; discriminate.
  - intros Hlast. apply last_item_In in Hlast.
    apply Nat.ltb_ge in En.
    exists archives. split; [reflexivity|]. split.
    + now apply (Permutation_in _ Hperm).
    + intros a Ha. apply (names_of_one_package_inv S); try assumption.
      now apply (Permutation_in _ (Permutation_sym Hperm)).
Qed.

(** X7.  Whenever [find_latest_version] returns an archive, the packages all
    parse, the archive is one of them, and all of them have its name. *)
Theorem find_latest_version_returns_member (packages : list (package VC))
    (latest : DebArchive VC) :
  find_latest_version packages = Ok (Some latest) ->
  exists archives,
    comprehension from_filename packages = Ok archives
    /\ In latest archives
    /\ forall a, In a archives -> name a = name latest.
Proof.
  unfold find_latest_version. destruct packages as [|p packages];
    [discriminate|].
  destruct (find_latest_version_checked (p :: packages)) as [l|] eqn:E;
    cbn [bind]; [|discriminate].
  intros [= <-]. now apply find_latest_version_checked_ok_inv.
Qed.


(** X11.  Both batch functions raise what the first package that does not
    parse raises, whatever follows it. *)
Theorem batch_raises_first_failure (good : list (package VC))
    (x : package VC) (rest : list (package VC)) (e : exn) :
  Forall (fun y => is_ok (from_filename y) = true) good ->
  from_filename x = Raise e ->
  find_latest_version (good ++ x :: rest) = Raise e
  /\ find_latest_versions (good ++ x :: rest) = Raise e.
Proof.
  intros Hgood Hx.
  pose proof (comprehension_first_failure from_filename good x rest e
                Hgood Hx) as Hc.
  unfold find_latest_version, find_latest_version_checked,
    find_latest_versions.
  destruct (good ++ x :: rest)%list as [|p l] eqn:E.
  - destruct good; discriminate.
  - rewrite Hc. split; reflexivity.
Qed.

(** X8.  Packages that parse into plain archives of more than one name make
    [find_latest_version] raise a [ValueError] whose message is the bare
    text, without the names. *)
Theorem find_latest_version_mixed_names (packages : list (package VC))
    (archives : list (DebArchive VC)) (a b : DebArchive VC) :
  comprehension from_filename packages = Ok archives ->
  Forall plain archives ->
  In a archives -> In b archives -> name a <> name b ->
  find_latest_version packages
  = Raise (ValueError "Cannot compare versions of different package names").
Proof.
  intros Hparse Hplain Ha Hb Hne.
  unfold find_latest_version. destruct packages as [|p packages].
  - cbn in Hparse. injection Hparse as <-. contradiction.
  - now rewrite (find_latest_version_checked_names _ _ a b Hparse Hplain
                   Ha Hb Hne).
Qed.

Lemma sorted_singleton {A K : Type} (key : A -> K)
    (lt : K -> K -> result bool) (x : A) :
  sorted key lt [x] = Ok [x].
Proof. reflexivity. Qed.

Lemma find_latest_version_checked_singleton (x : package VC) :
  find_latest_version_checked [x] = from_filename x.
Proof.
  unfold find_latest_version_checked. cbn [comprehension].
  destruct (from_filename x) as [a|e]; [|reflexivity].
  cbn [bind]. rewrite sorted_singleton. cbn [bind].
  assert (Hsize : (1 <? size (list_to_set (map name [a]) : gset string))%nat
                  = false).
  { apply Nat.ltb_ge. apply (names_of_one_package _ (name a)).
    intros b [<-|[]]. reflexivity. }
  rewrite Hsize. reflexivity.
Qed.

(** X10.  A single package is its own latest: both batch functions parse it
    and return it, [find_latest_versions] under its name, and raise only
    what parsing it raises. *)
Theorem batch_singleton (x : package VC) :
  find_latest_version [x]
  = (archive <-- from_filename x ;; Ok (Some archive))
  /\ find_latest_versions [x]
     = (archive <-- from_filename x ;;
        Ok (Some (<[name archive := archive]> ∅))).
Proof.
  split.
  - unfold find_latest_version.
    now rewrite find_latest_version_checked_singleton.
  - unfold find_latest_versions. cbn [comprehension].
    destruct (from_filename x) as [a|e]; [|reflexivity].
    cbn [bind]. rewrite sorted_singleton.
    cbn [bind groupby latest_of_groups map].
    rewrite find_latest_version_checked_singleton. reflexivity.
Qed.

End BatchResultFacts.

(** ** [find_latest_versions]: what a result is made of *)

Section GroupResultFacts.
Context {VC : VersionClass}.

(** An element of a list is in the group of its key. *)
Lemma groupby_group_of {A : Type} (key : A -> string) (l : list A) (x : A) :
  In x l -> exists g, In (key x, g) (groupby key l) /\ In x g.
Proof.
  intros Hx. rewrite <- (groupby_concat key l) in Hx.
  apply in_concat in Hx as (g & Hg & Hxg).
  apply in_map_iff in Hg as ([k g'] & Hsnd & Hkg). cbn [snd] in Hsnd.
  subst g'. exists g. split; [|assumption].
  pose proof (groupby_groups key l) as Hgroups.
  rewrite List.Forall_forall in Hgroups.
  destruct (Hgroups _ Hkg) as [_ Hk]. cbn [fst snd] in Hk.
  now rewrite (Hk x Hxg).
Qed.

Lemma groupby_member {A : Type} (key : A -> string) (l : list A)
    (k : string) (g : list A) (x : A) :
  In (k, g) (groupby key l) -> In x g -> In x l /\ key x = k.
Proof.
  intros Hg Hx. split.
  - rewrite <- (groupby_concat key l). apply in_concat.
    exists g. split; [|assumption]. apply in_map_iff. now exists (k, g).
  - pose proof (groupby_groups key l) as Hgroups.
    rewrite List.Forall_forall in Hgroups.
    destruct (Hgroups _ Hg) as [_ Hk]. now apply Hk.
Qed.

(** When the loop over the groups does not raise, the names it has
    entered are the keys of the groups, each with an element of a group
    of this key; the entries it found stay unless it enters their name. *)
Lemma latest_of_groups_ok_inv (G : list (string * list (DebArchive VC)))
    (latests m : gmap string (DebArchive VC)) :
  latest_of_groups G latests = Ok m ->
  (forall k, is_Some (m !! k) <->
             is_Some (latests !! k) \/ In k (map fst G))
  /\ (forall k a, m !! k = Some a ->
        latests !! k = Some a \/ exists g, In (k, g) G /\ In a g).
Proof.
  revert latests. induction G as [|[k g] G IH]; intros latests;
    cbn [latest_of_groups].
  - intros [= <-]. split; [|auto]. intros k. cbn [map In]. tauto.
  - destruct (find_latest_version_checked (map Archive g)) as [latest|]
      eqn:E; cbn [bind]; [|discriminate].
    destruct (find_latest_version_checked_ok_inv _ _ E)
      as (archives & Hparse & Hin & _).
    rewrite comprehension_archives in Hparse. injection Hparse as <-.
    intros Hm. destruct (IH _ Hm) as [Hdom Hval]. split.
    + intros k'. rewrite Hdom. cbn [map fst In].
      destruct (string_dec k k') as [<-|Hne].
      * rewrite lookup_insert_eq. split; [auto|]. intros _. left. eauto.
      * rewrite lookup_insert_ne by assumption. tauto.
    + intros k' a Ha. destruct (Hval k' a Ha) as [Hl|(g' & Hg' & Hag')].
      * destruct (string_dec k k') as [<-|Hne].
        -- rewrite lookup_insert_eq in Hl. injection Hl as <-.
           right. exists g. split; [now left | assumption].
        -- rewrite lookup_insert_ne in Hl by assumption. now left.
      * right. exists g'. split; [now right | assumption].
Qed.

(** X14.  Whenever [find_latest_versions] returns a mapping, the packages all
    parse, the mapping has an entry for a name exactly when a package
    has this name, and each entry is one of the packages with the name
    it is entered under. *)
Theorem find_latest_versions_entries (packages : list (package VC))
    (latests : gmap string (DebArchive VC)) :
  find_latest_versions packages = Ok (Some latests) ->
  exists archives,
    comprehension from_filename packages = Ok archives
    /\ (forall n, is_Some (latests !! n) <->
                  exists a, In a archives /\ name a = n)
    /\ (forall n a, latests !! n = Some a ->
                    In a archives /\ name a = n).
Proof.
  unfold find_latest_versions. destruct packages as [|p packages];
    [discriminate|].
  destruct (comprehension from_filename (p :: packages)) as [archives|];
    cbn [bind]; [|discriminate].
  destruct (sorted (fun p => p) DebArchive_lt archives) as [S|] eqn:Esort;
    cbn [bind]; [|discriminate].
  pose proof (sorted_perm _ _ _ _ Esort) as Hperm.
  destruct (latest_of_groups (groupby name S) ∅) as [m|] eqn:Em;
    cbn [bind]; [|discriminate].
  intros [= <-]. exists archives. split; [reflexivity|].
  destruct (latest_of_groups_ok_inv _ _ _ Em) as [Hdom Hval].
  assert (Hentry : forall n a, m !! n = Some a -> In a archives /\ name a = n).
  { intros n a Ha. destruct (Hval n a Ha) as [He|(g & Hg & Hag)].
    - rewrite lookup_empty in He. discriminate.
    - destruct (groupby_member name S n g a Hg Hag) as [HS Hn].
      split; [|assumption]. now apply (Permutation_in _ Hperm). }
  split; [|exact Hentry].
  intros n. split.
  - intros [a Ha]. exists a. now apply Hentry.
  - intros (a & Ha & <-). apply Hdom. right.
    apply (Permutation_in _ (Permutation_sym Hperm)) in Ha.
    destruct (groupby_group_of name S a Ha) as (g & Hg & _).
    apply in_map_iff. now exists (name a, g).
Qed.

Lemma groupby_one_name {A : Type} (key : A -> string) (l : list A)
    (n : string) :
  l <> [] -> (forall x, In x l -> key x = n) -> groupby key l = [(n, l)].
Proof.
  induction l as [|x l IH]; [congruence|]. intros _ Hkey. cbn [groupby].
  destruct l as [|y l].
  - cbn [groupby]. rewrite (Hkey x) by now left. reflexivity.
  - rewrite IH; [|discriminate|intros z Hz; apply Hkey; now right].
    rewrite (Hkey x) by now left. now rewrite String.eqb_refl.
Qed.

(** Sorting a sorted list changes nothing. *)
Lemma sorted_prefix_not_above {A : Type} (ltb : A -> A -> bool)
    (acc : list A) (x : A) (l : list A) :
  StronglySorted (not_above ltb) (acc ++ x :: l) ->
  Forall (fun y => ltb x y = false) acc.
Proof.
  induction acc as [|y acc IH]; cbn [app]; intros H; [constructor|].
  inversion H as [|? ? Hs Hy]; subst. constructor; [|now apply IH].
  rewrite List.Forall_forall in Hy. apply Hy.
  apply in_or_app. right. now left.
Qed.

Lemma stable_insert_last {A : Type} (ltb : A -> A -> bool)
    (x : A) (acc : list A) :
  Forall (fun y => ltb x y = false) acc ->
  stable_insert ltb x acc = (acc ++ [x])%list.
Proof.
  induction 1 as [|y acc Hy _ IH]; [reflexivity|].
  cbn [stable_insert app]. now rewrite Hy, IH.
Qed.

Lemma stable_sort_onto_sorted_id {A : Type} (ltb : A -> A -> bool)
    (acc l : list A) :
  StronglySorted (not_above ltb) (acc ++ l) ->
  stable_sort_onto ltb acc l = (acc ++ l)%list.
Proof.
  revert acc. induction l as [|x l IH]; intros acc H; cbn [stable_sort_onto].
  - now rewrite app_nil_r.
  - rewrite (stable_insert_last ltb x acc)
      by now apply (sorted_prefix_not_above ltb acc x l).
    rewrite IH; rewrite <- app_assoc; [reflexivity | exact H].
Qed.

Lemma stable_sort_sorted_id {A : Type} (ltb : A -> A -> bool) (l : list A) :
  StronglySorted (not_above ltb) l -> stable_sort ltb l = l.
Proof. intros H. now apply (stable_sort_onto_sorted_id ltb [] l). Qed.

(** The body of [find_latest_version] on plain archives of one name
    returns the last of the sorted archives. *)
Lemma find_latest_version_checked_last (packages : list (package VC))
    (archives l : list (DebArchive VC)) (m : DebArchive VC) (n : string) :
  comprehension from_filename packages = Ok archives ->
  Forall plain archives ->
  (forall a, In a archives -> name a = n) ->
  stable_sort attribute_lt archives = (l ++ [m])%list ->
  find_latest_version_checked packages = Ok m.
Proof.
  intros Hparse Hplain Hnames Hsort. unfold find_latest_version_checked.
  rewrite Hparse. cbn [bind].
  rewrite (sorted_to_tuple_plain _ Hplain). cbn [bind].
  pose proof (stable_sort_perm attribute_lt archives) as Hperm.
  assert (Hsize : (1 <? size (list_to_set
                     (map name (stable_sort attribute_lt archives))
                       : gset string))%nat = false).
  { apply Nat.ltb_ge. apply (names_of_one_package _ n).
    intros a Ha. apply Hnames. now apply (Permutation_in _ Hperm). }
  rewrite Hsize, Hsort. apply last_item_snoc.
Qed.

Section WithOrder.
Context {VO : VersionOrder VC}.

(** X15.  On packages of one name the two batch functions agree: for a
    non-empty list of packages that parse into plain archives of one
    name, [find_latest_versions] returns the mapping of this name to the
    archive that [find_latest_version] returns. *)
Theorem find_latest_versions_of_one_name (packages : list (package VC))
    (archives : list (DebArchive VC)) (n : string) :
  packages <> [] ->
  comprehension from_filename packages = Ok archives ->
  Forall plain archives ->
  (forall a, In a archives -> name a = n) ->
  exists latest,
    find_latest_version packages = Ok (Some latest)
    /\ find_latest_versions packages = Ok (Some (<[n := latest]> ∅)).
Proof.
  intros Hne Hparse Hplain Hnames.
  set (S := stable_sort attribute_lt archives).
  pose proof (stable_sort_perm attribute_lt archives) as Hperm.
  pose proof (stable_sort_sorted attribute_lt attribute_lt_transitive
                attribute_lt_irreflexive archives) as Hsorted.
  fold S in Hperm, Hsorted.
  assert (HS : S <> []).
  { intros E. rewrite E in Hperm. apply Permutation_nil in Hperm.
    subst archives. destruct packages as [|p packages]; [congruence|].
    cbn [comprehension] in Hparse.
    destruct (from_filename p); cbn [bind] in Hparse; [|discriminate].
    destruct (comprehension from_filename packages); discriminate. }
  destruct (exists_last HS) as (l & m & El).
  assert (HplainS : Forall plain S).
  { rewrite List.Forall_forall in Hplain |- *. intros a Ha.
    apply Hplain. now apply (Permutation_in _ Hperm). }
  assert (HnamesS : forall a, In a S -> name a = n).
  { intros a Ha. apply Hnames. now apply (Permutation_in _ Hperm). }
  exists m. split.
  - unfold find_latest_version. destruct packages; [congruence|].
    now rewrite (find_latest_version_checked_last _ archives l m n).
  - unfold find_latest_versions. destruct packages; [congruence|].
    rewrite Hparse. cbn [bind].
    assert (Hsort : sorted (fun p => p) DebArchive_lt archives = Ok S).
    { apply sorted_stable_sort. intros x y Hx Hy.
      rewrite List.Forall_forall in Hplain.
      destruct (Hplain x Hx) as (_ & _ & sx & Ex & _).
      destruct (Hplain y Hy) as (_ & _ & sy & Ey & _).
      apply DebArchive_lt_attribute_lt; congruence. }
    rewrite Hsort. cbn [bind].
    rewrite (groupby_one_name name S n HS HnamesS).
    cbn [latest_of_groups].
    rewrite (find_latest_version_checked_last (map Archive S) S l m n);
      try assumption.
    + reflexivity.
    + apply comprehension_archives.
    + rewrite (stable_sort_sorted_id attribute_lt S Hsorted). exact El.
Qed.
(** Archives of which none is below the other agree on name,
    architecture and file name, and have equal versions, when the order
    of the versions is total. *)
Lemma attribute_lt_neither (a b : DebArchive VC) :
  (forall v w, Version_lt v w = false -> Version_lt w v = false ->
               Version_eq v w = true) ->
  attribute_lt a b = false -> attribute_lt b a = false ->
  name a = name b
  /\ Version_eq (version a) (version b) = true
  /\ architecture a = architecture b
  /\ filename_text a = filename_text b.
Proof.
  intros Htotal. unfold attribute_lt, lex. cbn [fst snd].
  destruct version_order as [Hrefl Hsym _ _ _ _ _].
  destruct (String.eqb (name a) (name b)) eqn:En.
  - apply String.eqb_eq in En. rewrite En, String.eqb_refl.
    destruct (Version_eq (version a) (version b)) eqn:Ev.
    + rewrite (Hsym _ _ Ev).
      destruct (String.eqb (architecture a) (architecture b)) eqn:Ea.
      * apply String.eqb_eq in Ea. rewrite Ea, String.eqb_refl.
        intros H1 H2. repeat split; try reflexivity.
        now apply string_ltb_antisymmetric.
      * intros H1 H2.
        destruct (String.eqb (architecture b) (architecture a)) eqn:Ea'.
        -- apply String.eqb_eq in Ea'. rewrite Ea', String.eqb_refl in Ea.
           discriminate.
        -- apply String.eqb_neq in Ea. exfalso. apply Ea.
           now apply string_ltb_antisymmetric.
    + intros H1 H2.
      destruct (Version_eq (version b) (version a)) eqn:Ev'.
      * rewrite (Hsym _ _ Ev') in Ev. discriminate.
      * rewrite (Htotal _ _ H1 H2) in Ev. discriminate.
  - intros H1 H2.
    destruct (String.eqb (name b) (name a)) eqn:En'.
    + apply String.eqb_eq in En'. rewrite En', String.eqb_refl in En.
      discriminate.
    + apply String.eqb_neq in En. exfalso. apply En.
      now apply string_ltb_antisymmetric.
Qed.

Lemma comprehension_perm {A B : Type} (f : A -> result B) (l l' : list A)
    (r : list B) :
  Permutation l l' -> comprehension f l = Ok r ->
  exists r', comprehension f l' = Ok r' /\ Permutation r r'.
Proof.
  intros Hperm. revert r. induction Hperm; intros r; cbn [comprehension].
  - intros [= <-]. now exists [].
  - destruct (f x) as [y|]; cbn [bind]; [|discriminate].
    destruct (comprehension f l) as [ys|] eqn:E; cbn [bind]; [|discriminate].
    intros [= <-]. destruct (IHHperm ys eq_refl) as (ys' & -> & Hp).
    exists (y :: ys'). split; [reflexivity | now constructor].
  - destruct (f y) as [b|]; cbn [bind]; [|discriminate].
    destruct (f x) as [a|]; cbn [bind]; [|discriminate].
    destruct (comprehension f l) as [ys|]; cbn [bind]; [|discriminate].
    intros [= <-]. exists (a :: b :: ys). split; [reflexivity|].
    apply perm_swap.
  - intros H. destruct (IHHperm1 r H) as (r' & H' & Hp).
    destruct (IHHperm2 r' H') as (r'' & H'' & Hp').
    exists r''. split; [assumption | now transitivity r'].
Qed.

(** X9.  The order of the packages does not change which package is the
    latest: for plain archives of one name and a total order of the
    versions, the archives returned for two orders of the same packages
    agree on name, architecture and [original_filename], and have equal
    versions. *)
Theorem find_latest_version_order_irrelevant
    (packages packages' : list (package VC))
    (archives : list (DebArchive VC)) :
  (forall v w, Version_lt v w = false -> Version_lt w v = false ->
               Version_eq v w = true) ->
  Permutation packages packages' ->
  packages <> [] ->
  comprehension from_filename packages = Ok archives ->
  Forall plain archives ->
  (forall a b, In a archives -> In b archives -> name a = name b) ->
  exists latest latest',
    find_latest_version packages = Ok (Some latest)
    /\ find_latest_version packages' = Ok (Some latest')
    /\ name latest = name latest'
    /\ Version_eq (version latest) (version latest') = true
    /\ architecture latest = architecture latest'
    /\ original_filename latest = original_filename latest'.
Proof.
  intros Htotal Hperm Hne Hparse Hplain Hnames.
  destruct (comprehension_perm _ _ _ _ Hperm Hparse)
    as (archives' & Hparse' & Hperm').
  assert (Hne' : packages' <> []).
  { intros ->. apply Permutation_sym, Permutation_nil in Hperm.
    contradiction. }
  assert (Hin : forall a, In a archives' <-> In a archives).
  { intros a. split; apply Permutation_in;
      [now apply Permutation_sym | assumption]. }
  assert (Hplain' : Forall plain archives').
  { rewrite List.Forall_forall in Hplain |- *. intros a Ha.
    apply Hplain. now apply Hin. }
  assert (Hnonempty : forall (ps : list (package VC)) (l : list (DebArchive VC)),
             ps <> [] -> comprehension from_filename ps = Ok l -> l <> []).
  { intros ps l Hps Hl ->. destruct ps as [|p ps]; [congruence|].
    cbn [comprehension] in Hl.
    destruct (from_filename p); cbn [bind] in Hl; [|discriminate].
    destruct (comprehension from_filename ps); discriminate. }
  destruct (find_latest_version_checked_plain packages archives)
    as (latest & Hl & Hlin & Hmax); try assumption.
  { now apply (Hnonempty packages). }
  destruct (find_latest_version_checked_plain packages' archives')
    as (latest' & Hl' & Hlin' & Hmax'); try assumption.
  { now apply (Hnonempty packages'). }
  { intros a b Ha Hb. apply Hnames; now apply Hin. }
  exists latest, latest'.
  split. { unfold find_latest_version. destruct packages; [congruence|].
           now rewrite Hl. }
  split. { unfold find_latest_version. destruct packages'; [congruence|].
           now rewrite Hl'. }
  destruct (attribute_lt_neither latest latest' Htotal)
    as (Hn & Hv & Ha & Hf).
  { apply Hmax. now apply Hin. }
  { apply Hmax'. apply Hin. assumption. }
  repeat split; try assumption.
  rewrite List.Forall_forall in Hplain.
  destruct (Hplain latest Hlin) as (_ & _ & s & Es & _).
  destruct (Hplain latest' (proj1 (Hin latest') Hlin')) as (_ & _ & s' & Es' & _).
  unfold filename_text in Hf. rewrite Es, Es' in Hf. congruence.
Qed.
End WithOrder.

End GroupResultFacts.
(* ===================================================================== *)
(** * The module at work *)
(* ===================================================================== *)

(** A run is settled by evaluation: both sides of each equation are
    computed and compared. *)
Ltac run_module :=
  cbv zeta; repeat split;
  lazymatch goal with
  | |- @eq ?T _ ?r => vm_cast_no_check (@eq_refl T r)
  end.

(** Runs of the module with versions read as text. *)
Section Runs.
Local Existing Instance TextVersionClass.

Local Abbreviation v s := (mkTextVersion s).

(** C1, the code at work.  Two archives parsed from the same file name
    in two directories agree on name, version and architecture and
    differ in [original_filename]; [to_tuple] keeps the
    [original_filename] as its fourth item, and the two tuples are not
    equal: one is below the other. *)
Theorem to_tuple_keeps_original_filename :
  let x := mkDebArchive "pkg" (v "1.0") "amd64" (Some "a/pkg_1.0_amd64.deb") in
  let y := mkDebArchive "pkg" (v "1.0") "amd64" (Some "b/pkg_1.0_amd64.deb") in
  from_filename (Filename "a/pkg_1.0_amd64.deb") = Ok x
  /\ from_filename (Filename "b/pkg_1.0_amd64.deb") = Ok y
  /\ to_tuple x = [PStr "pkg"; PVersion (v "1.0"); PStr "amd64";
                   PStr "a/pkg_1.0_amd64.deb"]
  /\ to_tuple y = [PStr "pkg"; PVersion (v "1.0"); PStr "amd64";
                   PStr "b/pkg_1.0_amd64.deb"]
  /\ tuple_eq (to_tuple x) (to_tuple y) = false
  /\ tuple_lt (to_tuple x) (to_tuple y) = Ok true.
Proof. run_module. Qed.

(** The example of the doc string of [from_filename]. *)
Example from_filename_docstring :
  from_filename
    (Filename "/var/cache/apt/archives/python2.7_2.7.3-0ubuntu3.4_amd64.deb")
  = Ok (mkDebArchive "python2.7" (v "2.7.3-0ubuntu3.4") "amd64"
          (Some "/var/cache/apt/archives/python2.7_2.7.3-0ubuntu3.4_amd64.deb")).
Proof. run_module. Qed.

(** The refused names of the spec: no extension, another extension, no
    or one underscore, three underscores; and a version that the parser
    rejects. *)
Example from_filename_refusals :
  from_filename (Filename "pkg_1.0_amd64")
    = Raise (unknown_extension "pkg_1.0_amd64")
  /\ from_filename (Filename "pkg_1.0_amd64.rpm")
    = Raise (unknown_extension "pkg_1.0_amd64.rpm")
  /\ from_filename (Filename "pkg.deb") = Raise (unknown_format "pkg.deb")
  /\ from_filename (Filename "pkg_1.0.deb")
    = Raise (unknown_format "pkg_1.0.deb")
  /\ from_filename (Filename "a_b_c_d.deb")
    = Raise (unknown_format "a_b_c_d.deb")
  /\ from_filename (Filename "pkg__amd64.deb")
    = Raise (ValueError "Invalid version string: ").
Proof. run_module. Qed.

(** C7, the code at work: a name with nothing before the first and
    nothing after the second underscore parses, into an empty name and
    an empty architecture. *)
Theorem from_filename_empty_name_and_architecture :
  from_filename (Filename "_1.0_.deb")
  = Ok (mkDebArchive "" (v "1.0") "" (Some "_1.0_.deb"))
  /\ name (mkDebArchive "" (v "1.0") "" (Some "_1.0_.deb")) = ""
  /\ architecture (mkDebArchive "" (v "1.0") "" (Some "_1.0_.deb")) = "".
Proof. run_module. Qed.

Lemma from_filename_attributes_run :
  exists evr,
    PyStr.split "_" (filename_stem "pkg_1.0_amd64.deb")
      = ["pkg"; evr; "amd64"]
    /\ @Version_from_string TextVersionClass evr = Ok (v "1.0")
    /\ Some "pkg_1.0_amd64.deb" = Some "pkg_1.0_amd64.deb"
    /\ PyStr.count "_" "pkg" = O
    /\ PyStr.count "_" "amd64" = O
    /\ (is_ok (@Version_from_string TextVersionClass "") = false
        -> evr <> "").
Proof.
  apply (from_filename_attributes "pkg_1.0_amd64.deb"
           (mkDebArchive (VC := TextVersionClass)
              "pkg" (v "1.0") "amd64" (Some "pkg_1.0_amd64.deb"))).
  vm_compute. reflexivity.
Defined.

(** C8 at work: an archive whose [original_filename] would not parse
    passes all the same. *)
Example from_filename_archive_not_reparsed :
  let archive := mkDebArchive "pkg" (v "1.0") "amd64" (Some "not a package") in
  from_filename (Archive archive) = Ok archive
  /\ from_filename (Filename "not a package")
     = Raise (unknown_extension "not a package").
Proof. run_module. Qed.

Lemma from_filename_extension_case_sensitive_run :
  (case_variant_of ".deb" ".DEB" \/ case_variant_of ".udeb" ".DEB")
  /\ from_filename (Filename ("pkg_1.0_amd64" ++ ".DEB"))
     = Raise (unknown_extension
                (PosixPath.basename ("pkg_1.0_amd64" ++ ".DEB"))).
Proof.
  assert (H : case_variant_of ".deb" ".DEB" \/ case_variant_of ".udeb" ".DEB").
  { left. split; [reflexivity | discriminate]. }
  split; [exact H|].
  apply (from_filename_extension_case_sensitive "pkg_1.0_amd64" ".DEB" H).
Defined.

Example from_filename_mixed_case :
  from_filename (Filename "pkg_1.0_amd64.Udeb")
  = Raise (unknown_extension "pkg_1.0_amd64.Udeb")
  /\ from_filename (Filename "pkg_1.0_amd64.DEB")
  = Raise (unknown_extension "pkg_1.0_amd64.DEB")
  /\ from_filename (Filename "dir/pkg_1.0_amd64.Deb")
  = Raise (unknown_extension "pkg_1.0_amd64.Deb").
Proof. run_module. Qed.

(** The example of the spec for [find_latest_version], in both orders
    of the input. *)
Example find_latest_version_two_versions :
  let latest :=
    mkDebArchive "pkg" (v "2.0") "amd64" (Some "pkg_2.0_amd64.deb") in
  find_latest_version
    [Filename "pkg_1.0_amd64.deb"; Filename "pkg_2.0_amd64.deb"]
  = Ok (Some latest)
  /\ find_latest_version
    [Filename "pkg_2.0_amd64.deb"; Filename "pkg_1.0_amd64.deb"]
  = Ok (Some latest).
Proof. run_module. Qed.

(** C2, the code at work.  [to_tuple] drops the values that are the
    text [original_filename] and keeps the [original_filename]
    attribute: for an archive whose architecture is that text the
    file name takes the place of the architecture in the sort key.
    This archive is then returned as the latest although its ordering
    key is below the key of the other archive of the same name.  With
    an archive without [original_filename] next to the same package
    given as a file name, the sort compares [None] with a string and
    raises. *)
Theorem find_latest_version_sorts_by_original_filename :
  let odd := mkDebArchive "pkg" (v "1.0") "original_filename" (Some "zzz") in
  let p := mkDebArchive "pkg" (v "1.0") "p" (Some "pkg_1.0_p.deb") in
  from_filename (Filename "pkg_1.0_p.deb") = Ok p
  /\ to_tuple odd = [PStr "pkg"; PVersion (v "1.0"); PStr "zzz"]
  /\ to_tuple p = [PStr "pkg"; PVersion (v "1.0"); PStr "p";
                   PStr "pkg_1.0_p.deb"]
  /\ find_latest_version [Archive odd; Filename "pkg_1.0_p.deb"]
     = Ok (Some odd)
  /\ find_latest_version [Filename "pkg_1.0_p.deb"; Archive odd]
     = Ok (Some odd)
  /\ tuple_lt (ordering_key odd) (ordering_key p) = Ok true
  /\ find_latest_version
       [Archive (mkDebArchive "pkg" (v "1.0") "amd64" None);
        Filename "pkg_1.0_amd64.deb"]
     = Raise (TypeError
         "'<' not supported between instances of 'str' and 'NoneType'").
Proof. run_module. Qed.

(** The example of the spec for [find_latest_versions]. *)
Example find_latest_versions_two_names :
  find_latest_versions
    [Filename "a_2.0_all.deb"; Filename "b_1.0_all.deb";
     Filename "a_1.0_all.deb"]
  = Ok (Some
      (<["a" := mkDebArchive "a" (v "2.0") "all" (Some "a_2.0_all.deb")]>
        (<["b" := mkDebArchive "b" (v "1.0") "all" (Some "b_1.0_all.deb")]>
          ∅))).
Proof. run_module. Qed.

(** C3, the code at work.  [find_latest_versions] takes the latest of
    each group from [find_latest_version], and with it the sort key of
    [to_tuple]: the name [pkg] is mapped to the archive whose ordering
    key is below the key of the other archive of the group, in both
    orders of the input. *)
Theorem find_latest_versions_sorts_by_original_filename :
  let odd := mkDebArchive "pkg" (v "1.0") "original_filename" (Some "zzz") in
  let p := mkDebArchive "pkg" (v "1.0") "p" (Some "pkg_1.0_p.deb") in
  from_filename (Filename "pkg_1.0_p.deb") = Ok p
  /\ find_latest_versions [Archive odd; Filename "pkg_1.0_p.deb"]
     = Ok (Some (<["pkg" := odd]> ∅))
  /\ find_latest_versions [Filename "pkg_1.0_p.deb"; Archive odd]
     = Ok (Some (<["pkg" := odd]> ∅))
  /\ tuple_lt (ordering_key odd) (ordering_key p) = Ok true.
Proof. run_module. Qed.

(** C6, the code at work.  Packages of two names are refused with a
    [ValueError], but its message is the bare text: the text has no
    replacement field, so the sorted names that are passed to [format]
    do not appear in it. *)
Theorem find_latest_version_message_without_names :
  find_latest_version
    [Filename "pkg_1.0_amd64.deb"; Filename "other_1.0_amd64.deb"]
  = Raise (ValueError "Cannot compare versions of different package names")
  /\ PyStr.contains "pkg"
       "Cannot compare versions of different package names" = false
  /\ PyStr.contains "other"
       "Cannot compare versions of different package names" = false
  /\ PyStr.format "names: {}" [PyStr.join " " ["other"; "pkg"]]
     = "names: other pkg".
Proof. run_module. Qed.

Lemma empty_input_is_not_an_error_run :
  find_latest_version (VC := TextVersionClass) [] = Ok None
  /\ find_latest_versions (VC := TextVersionClass) [] = Ok None
  /\ (exists e', find_latest_version [Filename "pkg.rpm"] = Raise e')
  /\ (exists e', find_latest_versions [Filename "pkg.rpm"] = Raise e').
Proof.
  destruct (empty_input_is_not_an_error (VC := TextVersionClass))
    as (H1 & H2 & H3).
  split; [exact H1|]. split; [exact H2|].
  apply (H3 [Filename "pkg.rpm"] (Filename "pkg.rpm")
            (unknown_extension "pkg.rpm")).
  - left. reflexivity.
  - vm_compute. reflexivity.
Defined.

(** Relationship sets that report what they hold. *)
Local Abbreviation told := (fun (r : option bool) (_ : string)
                              (_ : TextVersion) => r).

Lemma match_relationships_conflict_is_terminal_run :
  let archive := mkDebArchive "pkg" (v "1.0") "amd64" None in
  match_relationships_traced (VC := TextVersionClass) told archive [Some true; Some false; Some true]
  = (Some false, [Some true; Some false])
  /\ match_relationships_traced (VC := TextVersionClass) told archive [None; Some true]
     = (Some true, [None; Some true])
  /\ match_relationships_traced (VC := TextVersionClass) told archive [] = (None, []).
Proof.
  intros archive.
  destruct (match_relationships_conflict_is_terminal
            (VC := TextVersionClass) told archive)
    as (Hconflict & _ & Hpeace).
  split; [|split].
  - apply (Hconflict [Some true] (Some false) [Some true]).
    + repeat constructor. intros H. discriminate H.
    + reflexivity.
  - apply (Hpeace [None; Some true]).
    repeat constructor; intros H; discriminate H.
  - apply (Hpeace []). constructor.
Defined.

Lemma from_filename_fails_exactly_when_run :
  (exists e, from_filename (Filename "a_b_c_d.deb") = Raise e)
  /\ from_filename (Filename "pkg_1.0_amd64.rpm")
     = Raise (unknown_extension (PosixPath.basename "pkg_1.0_amd64.rpm")).
Proof.
  split.
  - apply (proj1 (from_filename_fails_exactly_when "a_b_c_d.deb")).
    right; left. vm_compute. discriminate.
  - apply (from_filename_fails_exactly_when "pkg_1.0_amd64.rpm").
    vm_compute. intros [H|H]; discriminate H.
Defined.

(** Versions read as text are ordered as the spec asks. *)
Lemma TextVersionOrder : VersionOrder TextVersionClass.
Proof.
  destruct string_order as [Hrefl Hsym Htrans Hlt Hne Hl Hr].
  constructor; cbn; intros; eauto.
Qed.



End Runs.

(** More runs, with versions read as text. *)
Section MoreRuns.
Local Existing Instance TextVersionClass.

Local Abbreviation tv s := (mkTextVersion s).
Local Abbreviation deb n ver arch o :=
  (mkDebArchive (VC := TextVersionClass) n (mkTextVersion ver) arch o).

Lemma to_tuple_of_parsed_run :
  to_tuple (deb "pkg" "1.0" "amd64" (Some "dir/pkg_1.0_amd64.deb"))
  = [PStr "pkg"; PVersion (tv "1.0"); PStr "amd64";
     PStr "dir/pkg_1.0_amd64.deb"].
Proof.
  apply (to_tuple_of_parsed "dir/pkg_1.0_amd64.deb"
           (deb "pkg" "1.0" "amd64" (Some "dir/pkg_1.0_amd64.deb"))).
  run_module.
Defined.

Lemma to_tuple_tells_original_filename_run :
  tuple_eq (to_tuple (deb "pkg" "1.0" "amd64" None))
           (to_tuple (deb "pkg" "2.0" "amd64" (Some "pkg_2.0_amd64.deb")))
  = false.
Proof.
  apply to_tuple_tells_original_filename;
    [reflexivity | reflexivity | discriminate].
Defined.

Lemma from_filename_of_package_filename_run :
  from_filename
    (Filename ("/var/cache/"
               ++ package_filename "python2.7" "2.7.3-0ubuntu3.4" "amd64"
                    ".udeb"))
  = (v <-- @Version_from_string TextVersionClass "2.7.3-0ubuntu3.4" ;;
     Ok (mkDebArchive "python2.7" v "amd64"
           (Some ("/var/cache/"
                  ++ package_filename "python2.7" "2.7.3-0ubuntu3.4" "amd64"
                       ".udeb")))).
Proof.
  apply (from_filename_of_package_filename (VC := TextVersionClass)
           "/var/cache/" "python2.7" "2.7.3-0ubuntu3.4" "amd64" ".udeb").
  - right. exists "/var/cache". reflexivity.
  - right. reflexivity.
  - reflexivity.
  - reflexivity.
  - reflexivity.
  - reflexivity.
  - reflexivity.
  - reflexivity.
Defined.

Lemma from_filename_filename_shape_run :
  exists evr extension,
    recognized_extension extension
    /\ @Version_from_string TextVersionClass evr = Ok (tv "1.0")
    /\ PosixPath.basename "dir/pkg_1.0_amd64.deb"
       = package_filename "pkg" evr "amd64" extension.
Proof.
  apply (from_filename_filename_shape "dir/pkg_1.0_amd64.deb"
           (deb "pkg" "1.0" "amd64" (Some "dir/pkg_1.0_amd64.deb"))).
  run_module.
Defined.

Lemma find_latest_version_mixed_names_run :
  find_latest_version (VC := TextVersionClass)
    [Filename "pkg_1.0_amd64.deb"; Filename "other_1.0_amd64.deb"]
  = Raise (ValueError "Cannot compare versions of different package names").
Proof.
  assert (Hparse : comprehension from_filename
            [Filename "pkg_1.0_amd64.deb"; Filename "other_1.0_amd64.deb"]
          = Ok [deb "pkg" "1.0" "amd64" (Some "pkg_1.0_amd64.deb");
                deb "other" "1.0" "amd64" (Some "other_1.0_amd64.deb")])
    by run_module.
  apply (find_latest_version_mixed_names _ _
           (deb "pkg" "1.0" "amd64" (Some "pkg_1.0_amd64.deb"))
           (deb "other" "1.0" "amd64" (Some "other_1.0_amd64.deb")) Hparse).
  - apply (comprehension_filenames_plain
             ["pkg_1.0_amd64.deb"; "other_1.0_amd64.deb"]). exact Hparse.
  - left. reflexivity.
  - right. left. reflexivity.
  - discriminate.
Defined.

Lemma batch_raises_first_failure_run :
  find_latest_version (VC := TextVersionClass)
    ([Filename "pkg_1.0_amd64.deb"]
     ++ Filename "pkg.rpm" :: [Filename "broken"])
  = Raise (unknown_extension "pkg.rpm")
  /\ find_latest_versions (VC := TextVersionClass)
       ([Filename "pkg_1.0_amd64.deb"]
        ++ Filename "pkg.rpm" :: [Filename "broken"])
     = Raise (unknown_extension "pkg.rpm").
Proof.
  apply (batch_raises_first_failure (VC := TextVersionClass)
           [Filename "pkg_1.0_amd64.deb"] (Filename "pkg.rpm")
           [Filename "broken"]).
  - constructor; [run_module | constructor].
  - run_module.
Defined.

Lemma find_latest_version_returns_member_run :
  exists archives,
    comprehension from_filename
      [Filename "pkg_2.0_amd64.deb"; Filename "pkg_1.0_amd64.deb"]
    = Ok archives
    /\ In (deb "pkg" "2.0" "amd64" (Some "pkg_2.0_amd64.deb")) archives
    /\ forall a, In a archives -> name a = "pkg".
Proof.
  apply (find_latest_version_returns_member (VC := TextVersionClass)
           [Filename "pkg_2.0_amd64.deb"; Filename "pkg_1.0_amd64.deb"]
           (deb "pkg" "2.0" "amd64" (Some "pkg_2.0_amd64.deb"))).
  run_module.
Defined.


Local Abbreviation latest_a_b :=
  (<["a" := deb "a" "2.0" "all" (Some "a_2.0_all.deb")]>
     (<["b" := deb "b" "1.0" "all" (Some "b_1.0_all.deb")]> ∅)
   : gmap string (DebArchive TextVersionClass)).

Lemma find_latest_versions_entries_run :
  exists archives,
    comprehension from_filename
      [Filename "a_2.0_all.deb"; Filename "b_1.0_all.deb";
       Filename "a_1.0_all.deb"]
    = Ok archives
    /\ (forall n, is_Some (latest_a_b !! n)
                  <-> exists a, In a archives /\ name a = n)
    /\ (forall n a, latest_a_b !! n = Some a ->
                    In a archives /\ name a = n).
Proof.
  apply (find_latest_versions_entries (VC := TextVersionClass)
           [Filename "a_2.0_all.deb"; Filename "b_1.0_all.deb";
            Filename "a_1.0_all.deb"]).
  run_module.
Defined.

Lemma find_latest_versions_of_one_name_run :
  exists latest,
    find_latest_version (VC := TextVersionClass)
      [Filename "pkg_1.0_amd64.deb"; Filename "pkg_2.0_amd64.deb"]
    = Ok (Some latest)
    /\ find_latest_versions
         [Filename "pkg_1.0_amd64.deb"; Filename "pkg_2.0_amd64.deb"]
       = Ok (Some (<["pkg" := latest]> ∅)).
Proof.
  assert (Hparse : comprehension from_filename
            [Filename "pkg_1.0_amd64.deb"; Filename "pkg_2.0_amd64.deb"]
          = Ok [deb "pkg" "1.0" "amd64" (Some "pkg_1.0_amd64.deb");
                deb "pkg" "2.0" "amd64" (Some "pkg_2.0_amd64.deb")])
    by run_module.
  apply (find_latest_versions_of_one_name (VO := TextVersionOrder)
           [Filename "pkg_1.0_amd64.deb"; Filename "pkg_2.0_amd64.deb"]
           [deb "pkg" "1.0" "amd64" (Some "pkg_1.0_amd64.deb");
            deb "pkg" "2.0" "amd64" (Some "pkg_2.0_amd64.deb")] "pkg").
  - discriminate.
  - exact Hparse.
  - apply (comprehension_filenames_plain
             ["pkg_1.0_amd64.deb"; "pkg_2.0_amd64.deb"]). exact Hparse.
  - intros a [<-|[<-|[]]]; reflexivity.
Defined.

Lemma find_latest_version_order_irrelevant_run :
  exists latest latest',
    find_latest_version (VC := TextVersionClass)
      [Filename "pkg_1.0_amd64.deb"; Filename "pkg_2.0_amd64.deb"]
    = Ok (Some latest)
    /\ find_latest_version
         [Filename "pkg_2.0_amd64.deb"; Filename "pkg_1.0_amd64.deb"]
       = Ok (Some latest')
    /\ name latest = name latest'
    /\ Version_eq (version latest) (version latest') = true
    /\ architecture latest = architecture latest'
    /\ original_filename latest = original_filename latest'.
Proof.
  assert (Hparse : comprehension from_filename
            [Filename "pkg_1.0_amd64.deb"; Filename "pkg_2.0_amd64.deb"]
          = Ok [deb "pkg" "1.0" "amd64" (Some "pkg_1.0_amd64.deb");
                deb "pkg" "2.0" "amd64" (Some "pkg_2.0_amd64.deb")])
    by run_module.
  apply (find_latest_version_order_irrelevant (VO := TextVersionOrder)
           [Filename "pkg_1.0_amd64.deb"; Filename "pkg_2.0_amd64.deb"]
           [Filename "pkg_2.0_amd64.deb"; Filename "pkg_1.0_amd64.deb"]
           [deb "pkg" "1.0" "amd64" (Some "pkg_1.0_amd64.deb");
            deb "pkg" "2.0" "amd64" (Some "pkg_2.0_amd64.deb")]).
  - intros [a] [b] H1 H2. cbn in *.
    rewrite (string_ltb_antisymmetric a b H1 H2). apply String.eqb_refl.
  - apply perm_swap.
  - discriminate.
  - exact Hparse.
  - apply (comprehension_filenames_plain
             ["pkg_1.0_amd64.deb"; "pkg_2.0_amd64.deb"]). exact Hparse.
  - intros a b [<-|[<-|[]]] [<-|[<-|[]]]; reflexivity.
Defined.

(** Relationship sets that report what they hold. *)
Local Abbreviation held := (fun (r : option bool) (_ : string)
                              (_ : TextVersion) => r).

Lemma match_relationships_verdict_run :
  match_relationships (VC := TextVersionClass) held
    (deb "pkg" "1.0" "amd64" None) [None; Some true; None]
  = Some true.
Proof.
  apply (match_relationships_verdict (VC := TextVersionClass) held
           (deb "pkg" "1.0" "amd64" None) [None; Some true; None]).
  split.
  - intros H. apply List.Exists_exists in H as (r & Hin & Hr).
    destruct Hin as [<-|[<-|[<-|[]]]]; discriminate Hr.
  - apply List.Exists_exists. exists (Some true).
    split; [right; left; reflexivity | reflexivity].
Defined.

Lemma match_relationships_order_irrelevant_run :
  match_relationships (VC := TextVersionClass) held
    (deb "pkg" "1.0" "amd64" None) [Some true; Some false]
  = match_relationships (VC := TextVersionClass) held
      (deb "pkg" "1.0" "amd64" None) [Some false; Some true].
Proof.
  apply (match_relationships_order_irrelevant (VC := TextVersionClass) held).
  apply perm_swap.
Defined.

(** The closing facts at work: a conflict behind a satisfied report. *)
Example match_relationships_app_run :
  match_relationships (VC := TextVersionClass) held
    (deb "pkg" "1.0" "amd64" None) ([Some true] ++ [None; Some false])
  = combine_verdicts (Some true) (Some false).
Proof. run_module. Qed.

End MoreRuns.
